(** * fragments-boilerplate: the slot-based buffer animator and the grid trail texture

    A shallow embedding of
    - [use_storage_buffers] (the storage pool: [useStorageBuffers]),
    - [useStorageTrigger] ([trigger], the per-frame advance, the spring callbacks),
    - [useGridTrailTexture] ([handlePointerMove], the per-frame decay and deposit).

    Numbers.  A JavaScript number is modelled as an exact rational ([Q]): the
    arithmetic is the one the source writes, without binary64 or Float32Array
    rounding and without the non-finite values.  [===] on numbers is [Qeq_bool],
    the order tests are [Qle_bool] and [Qltb].  A division by zero, which
    JavaScript answers with a non-finite number, is outside the model: the
    statements about [elapsed / duration] assume a positive duration, the
    divisor [Math.sqrt(dist)] is shown to be nonzero, and the position a
    pointer move stores is the one computed with a canvas of nonzero width
    and height.

    Mutable objects.  Every [ShaderBuffer] lives in a store and is named by
    its position there, so that a data buffer that is the very object being
    animated is the same store cell.  A typed array is a [list Q]; a write past
    its end is dropped, which is what stdpp's list insert does. *)

From Stdlib Require Import QArith Qabs Qminmax Lqa Qpower.
From stdpp Require Import gmap strings list fin_maps.

Local Open Scope Q_scope.

(** ** Numeric helpers *)

(** [a < b] on numbers, as a boolean. *)
Definition Qltb (a b : Q) : bool := negb (Qle_bool b a).

(** [Array.prototype.findIndex]: the first position whose element satisfies
    the predicate; [None] stands for the result [-1]. *)
Fixpoint findIndex {A : Type} (p : A -> bool) (l : list A) : option nat :=
  match l with
  | [] => None
  | v :: l' => if p v then Some 0%nat else S <$> findIndex p l'
  end.

(** What a statement completes with: normally, or by throwing. *)
Inductive completion (A : Type) : Type :=
  | Normal (a : A)
  | Throw (message : string).
Arguments Normal {A} a.
Arguments Throw {A} message.

(** ** use_storage_buffers *)

Module StorageBuffers.

(** A [StorageInstancedBufferAttribute] of item size 1: its typed array and
    the flag that asks for a re-upload. *)
Record BufferAttribute : Type := mkAttribute {
  array : list Q;
  needsUpdate : bool
}.

(** The CPU side of a [ShaderBuffer].  The two storage nodes [active] and
    [values] are shader views of these same attributes. *)
Record ShaderBuffer : Type := mkShaderBuffer {
  activeBuffer : BufferAttribute;
  valuesBuffer : BufferAttribute
}.

(** [new THREE.StorageInstancedBufferAttribute(size, 1)]: zero filled. *)
Definition newAttribute (size : nat) : BufferAttribute :=
  mkAttribute (replicate size 0) false.

Definition newShaderBuffer (size : nat) : ShaderBuffer :=
  mkShaderBuffer (newAttribute size) (newAttribute size).

(** The object store: a buffer is named by its position. *)
Abbreviation Store := (list ShaderBuffer).

(** [useStorageBuffers(keys, size)]: one fresh buffer per key, in order;
    a repeated key keeps the buffer created last. *)
Fixpoint useStorageBuffers_from (keys : list string) (size : nat)
    (store : Store) (buffers : gmap string nat) : Store * gmap string nat :=
  match keys with
  | [] => (store, buffers)
  | key :: keys' =>
      useStorageBuffers_from keys' size
        (store ++ [newShaderBuffer size])
        (<[key := length store]> buffers)
  end.

Definition useStorageBuffers (keys : list string) (size : nat)
    : Store * gmap string nat :=
  useStorageBuffers_from keys size [] ∅.

(** [attr.array[i] = v; attr.needsUpdate = true]. *)
Definition write (i : nat) (v : Q) (attr : BufferAttribute) : BufferAttribute :=
  mkAttribute (<[i := v]> (array attr)) true.

Definition setActive (i : nat) (v : Q) (b : ShaderBuffer) : ShaderBuffer :=
  mkShaderBuffer (write i v (activeBuffer b)) (valuesBuffer b).

Definition setValue (i : nat) (v : Q) (b : ShaderBuffer) : ShaderBuffer :=
  mkShaderBuffer (activeBuffer b) (write i v (valuesBuffer b)).

End StorageBuffers.

(** ** useStorageTrigger *)

Module StorageTrigger.
Import StorageBuffers.

Inductive EasingType : Type := linear | easeIn | easeOut | easeInOut | spring.

Definition EasingType_eqb (a b : EasingType) : bool :=
  match a, b with
  | linear, linear | easeIn, easeIn | easeOut, easeOut
  | easeInOut, easeInOut | spring, spring => true
  | _, _ => false
  end.

Record SpringConfig : Type := mkSpringConfig {
  stiffness : Q;
  damping : Q
}.

(** [TriggerOptions]: every field may be left out.  [data] is the sequence
    [Object.entries(data)] walks. *)
Record TriggerOptions : Type := mkOptions {
  opt_targetValue : option Q;
  opt_duration : option Q;
  opt_easing : option EasingType;
  opt_springConfig : option SpringConfig;
  opt_data : option (list (string * Q))
}.

(** The record of a manual animation. *)
Record AnimationState : Type := mkAnimationState {
  startTime : Q;
  duration : Q;
  easing : EasingType;
  targetValue : Q
}.

(** What the map [animationsRef] holds for a slot: a manual record, or the
    playback controls [animate] returned, which carry no [easing]. *)
Inductive Animation : Type :=
  | Manual (anim : AnimationState)
  | MotionControls.

(** A call [animate(0, to, {type: 'spring', stiffness, damping, ...})] whose
    callbacks close over [slot]. *)
Record SpringStart : Type := mkSpringStart {
  spring_slot : nat;
  spring_to : Q;
  spring_config : SpringConfig
}.

(** The arguments of the hook: the animated buffer and the data buffers. *)
Record Hook : Type := mkHook {
  buffer : nat;
  dataBuffers : option (gmap string nat)
}.

(** Everything the hook reads and writes. *)
Record Pool : Type := mkPool {
  store : Store;
  animationsRef : gmap nat Animation;
  console : list string;
  motion : list SpringStart
}.

Definition with_store (f : Store -> Store) (st : Pool) : Pool :=
  mkPool (f (store st)) (animationsRef st) (console st) (motion st).

Definition with_animations
    (f : gmap nat Animation -> gmap nat Animation) (st : Pool) : Pool :=
  mkPool (store st) (f (animationsRef st)) (console st) (motion st).

Definition warn (message : string) (st : Pool) : Pool :=
  mkPool (store st) (animationsRef st) (console st ++ [message]) (motion st).

Definition animate (s : SpringStart) (st : Pool) : Pool :=
  mkPool (store st) (animationsRef st) (console st) (motion st ++ [s]).

Definition buffer_full : string := "Buffer full, cannot trigger new animation".

(** [progress] of a record at clock time [now], once its start time is set.
    (For a zero duration JavaScript divides to a non-finite number; what is
    stated about progress below is for a positive duration.) *)
Definition progress_of (anim : AnimationState) (now : Q) : Q :=
  let elapsed := now - startTime anim in
  Qmin (elapsed / duration anim) 1.

(** The easing curves of the frame loop. *)
Definition easedProgress (e : EasingType) (progress : Q) : Q :=
  match e with
  | easeIn => progress * progress
  | easeOut => progress * (2 - progress)
  | easeInOut =>
      if Qltb progress (1 # 2)
      then 2 * progress * progress
      else -1 + (4 - 2 * progress) * progress
  | _ => progress
  end.

(** The cleanup both completion paths share: free the slot, drop the record. *)
Definition release (hk : Hook) (i : nat) (st : Pool) : Pool :=
  with_animations (delete i)
    (with_store (alter (fun b => setValue i 0 (setActive i 0 b)) (buffer hk)) st).

(** [anim.startTime = clock.elapsedTime] when it still holds the sentinel 0. *)
Definition started (anim : AnimationState) (now : Q) : AnimationState :=
  if Qeq_bool (startTime anim) 0
  then mkAnimationState now (duration anim) (easing anim) (targetValue anim)
  else anim.

(** The write of line 154: [values[i] = easedProgress * targetValue], with
    the record's start time fixed. *)
Definition write_eased (hk : Hook) (now : Q) (i : nat) (anim : AnimationState)
    (st : Pool) : Pool :=
  let anim' := started anim now in
  let eased := easedProgress (easing anim') (progress_of anim' now) in
  with_animations (<[i := Manual anim']>)
    (with_store (alter (setValue i (eased * targetValue anim')) (buffer hk)) st).

(** One iteration of the frame loop, for slot [i]. *)
Definition advance_slot (hk : Hook) (now : Q) (st : Pool) (i : nat) : Pool :=
  match store st !! buffer hk with
  | None => st
  | Some buf =>
      let isActive :=
        match array (activeBuffer buf) !! i with
        | Some v => Qeq_bool v 1
        | None => false
        end in
      if isActive then
        match animationsRef st !! i with
        | Some (Manual anim) =>
            if negb (EasingType_eqb (easing anim) spring) then
              let st' := write_eased hk now i anim st in
              if Qle_bool 1 (progress_of (started anim now) now)
              then release hk i st'
              else st'
            else st
        | _ => st
        end
      else st
  end.

(** The [useFrame] callback at clock time [now]. *)
Definition useFrame (hk : Hook) (now : Q) (st : Pool) : Pool :=
  match store st !! buffer hk with
  | None => st
  | Some buf =>
      let bufferSize := length (array (activeBuffer buf)) in
      foldl (advance_slot hk now) st (seq 0 bufferSize)
  end.

(** One entry of [Object.entries(data).forEach]. *)
Definition store_data (dbs : gmap string nat) (idx : nat)
    (st : Store) (entry : string * Q) : Store :=
  match dbs !! entry.1 with
  | Some id => alter (setValue idx entry.2) id st
  | None => st
  end.

(** The slot a call to [trigger] would take. *)
Definition firstZeroIndex (hk : Hook) (st : Pool) : option nat :=
  buf ← store st !! buffer hk;
  findIndex (fun value => Qeq_bool value 0) (array (activeBuffer buf)).

(** [trigger(options)]. *)
Definition trigger (hk : Hook) (options : TriggerOptions) (st : Pool)
    : completion Pool :=
  let targetValue := default 1 (opt_targetValue options) in
  let duration := default (5 # 2) (opt_duration options) in
  let easing := default linear (opt_easing options) in
  let springConfig := default (mkSpringConfig 100 10) (opt_springConfig options) in
  let data := default [] (opt_data options) in
  match store st !! buffer hk with
  | None => Throw "TypeError"
  | Some buf =>
      match findIndex (fun value => Qeq_bool value 0) (array (activeBuffer buf)) with
      | None => Normal (warn buffer_full st)
      | Some idx =>
          let st1 := with_store (alter (setActive idx 1) (buffer hk)) st in
          let st2 :=
            match dataBuffers hk with
            | Some dbs =>
                with_store (fun s => foldl (store_data dbs idx) s data) st1
            | None => st1
            end in
          Normal
            (if EasingType_eqb easing spring then
               with_animations (<[idx := MotionControls]>)
                 (animate (mkSpringStart idx targetValue springConfig) st2)
             else
               with_animations
                 (<[idx := Manual (mkAnimationState 0 duration easing targetValue)]>)
                 st2)
      end
  end.

(** The callbacks handed to [animate] for the slot [idx]. *)
Definition onUpdate (hk : Hook) (idx : nat) (v : Q) (st : Pool) : Pool :=
  with_store (alter (setValue idx v) (buffer hk)) st.

Definition onComplete (hk : Hook) (idx : nat) (st : Pool) : Pool :=
  release hk idx st.

(** What can happen to a pool, and a run of such events.  A call that throws
    has not written anything, so the run goes on from the same state. *)
Inductive Event : Type :=
  | Trigger (options : TriggerOptions)
  | Frame (now : Q)
  | SpringUpdate (idx : nat) (v : Q)
  | SpringComplete (idx : nat).

Definition step (hk : Hook) (st : Pool) (e : Event) : Pool :=
  match e with
  | Trigger options =>
      match trigger hk options st with
      | Normal st' => st'
      | Throw _ => st
      end
  | Frame now => useFrame hk now st
  | SpringUpdate idx v => onUpdate hk idx v st
  | SpringComplete idx => onComplete hk idx st
  end.

Definition run (hk : Hook) (st : Pool) (events : list Event) : Pool :=
  foldl (step hk) st events.

(** The state right after the buffers are created. *)
Definition initial (s : Store) : Pool := mkPool s ∅ [] [].

End StorageTrigger.

(** ** useGridTrailTexture *)

(** The part of [Math] the frame loop calls and exact rationals cannot
    express; any implementation can be plugged in. *)
Class MathLib : Type := {
  Math_sqrt : Q -> Q;
  Math_pow : Q -> Q -> Q;
  Math_hypot : Q -> Q -> Q
}.

Module Vec2.
Record t : Type := mk { x : Q; y : Q }.
End Vec2.

Module GridTrail.

(** Modelled from the spec: [clamp] of [@/utils/math] is not among the
    sources.  The spec has it bound a value into a range ("clamp it to a
    fixed maximum (10)", "scaled to [0,2] per axis"); the calls here are
    [clamp(value, min, max)]. *)
Definition clamp (value lo hi : Q) : Q := Qmax lo (Qmin value hi).

Definition Math_sign (v : Q) : Q :=
  if Qltb 0 v then 1 else if Qltb v 0 then -1 else v.

(** A loop counter used as a number. *)
Definition num (n : nat) : Q := inject_Z (Z.of_nat n).

Record UseGridTrailTextureProps : Type := mkProps {
  grid : nat;
  radius : Q;
  strength : Q;
  decay : Q;
  influenceGain : Q;
  influenceGamma : Q
}.

(** The defaults of the destructuring pattern. *)
Definition defaultProps : UseGridTrailTextureProps :=
  mkProps 50 (5 # 100) (6 # 100) (75 # 100) 1 1.

Record DOMRect : Type := mkRect { left : Q; top : Q; width : Q; height : Q }.

Record PointerEvent : Type := mkEvent { clientX : Q; clientY : Q }.

(** The RGBA float texture: its flat [image.data] and the upload flag. *)
Record DataTexture : Type := mkTexture {
  data : list Q;
  needsUpdate : bool
}.

(** The refs of the hook. *)
Record Trail : Type := mkTrail {
  dataTextureRef : option DataTexture;
  pointerVelocityRef : Vec2.t;
  pointerRef : Vec2.t;
  rawPointerRef : option Vec2.t;
  canvasBoundsRef : option DOMRect
}.

Definition mounted : Trail :=
  mkTrail None (Vec2.mk 0 0) (Vec2.mk 0 0) None None.

(** [regenerateGrid]: a zeroed texture of [4 * dimensions] floats. *)
Definition regenerateGrid (p : UseGridTrailTextureProps) (st : Trail) : Trail :=
  let dimensions := (grid p * grid p)%nat in
  mkTrail (Some (mkTexture (replicate (4 * dimensions) 0) true))
    (pointerVelocityRef st) (pointerRef st) (rawPointerRef st) (canvasBoundsRef st).

(** [updateCanvasBounds]: [canvas] is the rectangle [gl.domElement] reports,
    [None] when there is no element. *)
Definition updateCanvasBounds (canvas : option DOMRect) (st : Trail) : Trail :=
  match canvas with
  | Some rect =>
      mkTrail (dataTextureRef st) (pointerVelocityRef st) (pointerRef st)
        (rawPointerRef st) (Some rect)
  | None => st
  end.

Definition bounds_not_found : string := "Canvas bounds not found".

(** [handlePointerMove]: the refs after the call, and the error it threw. *)
Definition handlePointerMove (canvas : option DOMRect) (event : PointerEvent)
    (st : Trail) : Trail * option string :=
  let st1 :=
    match canvasBoundsRef st with
    | Some _ => st
    | None => updateCanvasBounds canvas st
    end in
  match canvasBoundsRef st1 with
  | None => (st1, Some bounds_not_found)
  | Some bounds =>
      let x := (clientX event - left bounds) / width bounds in
      let y := (clientY event - top bounds) / height bounds in
      let ndcX := clamp (x * 2) 0 2 in
      let ndcY := clamp (y * 2) 0 2 in
      (mkTrail (dataTextureRef st1) (pointerVelocityRef st1) (pointerRef st1)
         (Some (Vec2.mk ndcX ndcY)) (canvasBoundsRef st1), None)
  end.

Definition resetVelocity (st : Trail) : Trail :=
  mkTrail (dataTextureRef st) (Vec2.mk 0 0) (pointerRef st)
    (rawPointerRef st) (canvasBoundsRef st).

Definition handlePointerLeave (st : Trail) : Trail :=
  mkTrail (dataTextureRef st) (Vec2.mk 0 0) (pointerRef st)
    None (canvasBoundsRef st).

(** The indices [0, 4, 8, ...] below [n] a stride-4 loop visits. *)
Definition strides (n : nat) : list nat :=
  (fun k => 4 * k)%nat <$> seq 0 ((n + 3) / 4).

(** The body of the decay loop at stride [i]. *)
Definition decay_at (decay : Q) (data : list Q) (i : nat) : list Q :=
  alter (fun v => v * decay) (i + 2)%nat
    (alter (fun v => v * decay) (i + 1)%nat
      (alter (fun v => v * decay) i data)).

(** [for (let i = 0; i < data.length; i += 4) { ... }]. *)
Definition decay_loop (decay : Q) (data : list Q) : list Q :=
  foldl (decay_at decay) data (strides (length data)).

Section Deposit.
Context {M : MathLib}.

(** The squared distance of the centre of cell [(x, y)] from the brush. *)
Definition cell_dist (cellX cellY : Q) (x y : nat) : Q :=
  let cellCenterX := num x + (1 # 2) in
  let cellCenterY := num y + (1 # 2) in
  (cellX - cellCenterX) ^ 2 + (cellY - cellCenterY) ^ 2.

(** The clamped falloff of the brush at squared distance [dist]. *)
Definition brush_force (mouseRadius dist : Q) : Q :=
  let force := mouseRadius / Math_sqrt dist in
  clamp force 0 10.

(** The body of the two nested deposit loops, for cell [(x, y)]. *)
Definition deposit_cell (p : UseGridTrailTextureProps) (velocity : Vec2.t)
    (mouseRadius cellX cellY : Q) (y : nat) (data : list Q) (x : nat)
    : list Q :=
  let size := grid p in
  let dist := cell_dist cellX cellY x y in
  let distMax := mouseRadius ^ 2 in
  if Qltb dist distMax && Qltb 0 dist then
    let dataIndex := (4 * (x + size * y))%nat in
    let force := brush_force mouseRadius dist in
    let vxGrid := Vec2.x velocity * (num size / 2) in
    let vyGrid := - Vec2.y velocity * (num size / 2) in
    let speedGrid := Math_hypot vxGrid vyGrid in
    let vxCurved := Math_sign vxGrid * Math_pow (Qabs vxGrid) (influenceGamma p) in
    let vyCurved := Math_sign vyGrid * Math_pow (Qabs vyGrid) (influenceGamma p) in
    let speedCurved := Math_pow speedGrid (influenceGamma p) in
    let scale := influenceGain p * strength p * force in
    let dispBase := scale * speedCurved in
    let len :=
      let h := Math_hypot vxCurved vyCurved in
      if Qeq_bool h 0 then 1 else h in
    let ndx := vxCurved / len in
    let ndy := vyCurved / len in
    alter (fun v => v + scale * speedCurved) (dataIndex + 2)%nat
      (alter (fun v => v + dispBase * ndy) (dataIndex + 1)%nat
        (alter (fun v => v + dispBase * - ndx) dataIndex data))
  else data.

(** [for x ... for y ...] over the whole grid. *)
Definition deposit_loop (p : UseGridTrailTextureProps) (velocity : Vec2.t)
    (mouseRadius cellX cellY : Q) (data : list Q) : list Q :=
  let size := grid p in
  foldl
    (fun d x =>
       foldl (fun d' y => deposit_cell p velocity mouseRadius cellX cellY y d' x)
         d (seq 0 size))
    data (seq 0 size).

(** Lines 246-250: the velocity of this frame, and the pointer moved. *)
Definition track_pointer (rawPointer : Vec2.t) (st : Trail) : Trail :=
  let prevPointerX := Vec2.x (pointerRef st) in
  let prevPointerY := Vec2.y (pointerRef st) in
  mkTrail (dataTextureRef st)
    (Vec2.mk (Vec2.x rawPointer - prevPointerX) (Vec2.y rawPointer - prevPointerY))
    (Vec2.mk (Vec2.x rawPointer) (Vec2.y rawPointer))
    (rawPointerRef st) (canvasBoundsRef st).

(** Lines 254-301: fade the grid, then deposit around the brush. *)
Definition paint (p : UseGridTrailTextureProps) (dt : DataTexture)
    (st : Trail) : Trail :=
  let size := grid p in
  let mouseRadius := num size * radius p in
  let cellX := Vec2.x (pointerRef st) * (1 # 2) * num size - mouseRadius * (1 # 2) in
  let cellY := (2 - Vec2.y (pointerRef st)) * (1 # 2) * num size + mouseRadius * (1 # 2) in
  let faded := decay_loop (decay p) (data dt) in
  let painted := deposit_loop p (pointerVelocityRef st) mouseRadius cellX cellY faded in
  mkTrail (Some (mkTexture painted true))
    (pointerVelocityRef st) (pointerRef st) (rawPointerRef st) (canvasBoundsRef st).

Definition EPS : Q := 1 # 1000.

(** One component of lines 304-312. *)
Definition settle (decay v : Q) : Q :=
  let v' := v * decay in
  if Qltb (Qabs v') EPS then 0 else v'.

Definition settle_velocity (p : UseGridTrailTextureProps) (st : Trail) : Trail :=
  mkTrail (dataTextureRef st)
    (Vec2.mk (settle (decay p) (Vec2.x (pointerVelocityRef st)))
             (settle (decay p) (Vec2.y (pointerVelocityRef st))))
    (pointerRef st) (rawPointerRef st) (canvasBoundsRef st).

(** The [useFrame] callback. *)
Definition useFrame (p : UseGridTrailTextureProps) (st : Trail) : Trail :=
  match dataTextureRef st with
  | None => st
  | Some dt =>
      match rawPointerRef st with
      | None =>
          mkTrail (Some (mkTexture (decay_loop (decay p) (data dt)) true))
            (pointerVelocityRef st) (pointerRef st) (rawPointerRef st)
            (canvasBoundsRef st)
      | Some rawPointer =>
          settle_velocity p (paint p dt (track_pointer rawPointer st))
      end
  end.

End Deposit.

End GridTrail.

(** A computable [Math]: square roots and norms rounded down to a thousandth,
    powers for whole exponents.  It only serves to run the model. *)
Definition approx_sqrt (q : Q) : Q :=
  Z.sqrt (Qnum q * Z.pos (Qden q) * 1000000) # (Qden q * 1000).

#[export] Instance approx_math : MathLib := {|
  Math_sqrt := approx_sqrt;
  Math_pow := fun b e => Qpower b (Qnum e / Z.pos (Qden e))%Z;
  Math_hypot := fun a b => approx_sqrt (a * a + b * b)
|}.

(** ** What an observer reads *)

Module Observe.
Import StorageBuffers StorageTrigger.

(** [buffer.activeBuffer.array[i]], [undefined] being [None]. *)
Definition active_at (hk : Hook) (st : Pool) (i : nat) : option Q :=
  buf ← store st !! buffer hk; array (activeBuffer buf) !! i.

(** [store[id].valuesBuffer.array[i]]. *)
Definition data_at (st : Pool) (id i : nat) : option Q :=
  buf ← store st !! id; array (valuesBuffer buf) !! i.

(** [buffer.valuesBuffer.array[i]]. *)
Definition value_at (hk : Hook) (st : Pool) (i : nat) : option Q :=
  data_at st (buffer hk) i.

(** All a frame reads of slot [i]: its flag, its value, its record. *)
Definition slot_view (hk : Hook) (st : Pool) (i : nat)
    : option Q * option Q * option Animation :=
  (active_at hk st i, value_at hk st i, animationsRef st !! i).

(** What one iteration of the frame loop does to the slot it visits, read
    off that slot alone. *)
Definition advance_view (now : Q)
    (view : option Q * option Q * option Animation)
    : option Q * option Q * option Animation :=
  match view with
  | (Some a, v, Some (Manual anim)) =>
      if Qeq_bool a 1 && negb (EasingType_eqb (easing anim) spring) then
        let anim' := started anim now in
        let progress := progress_of anim' now in
        if Qle_bool 1 progress
        then (Some 0, (fun _ => 0) <$> v, None)
        else (Some a,
              (fun _ => easedProgress (easing anim') progress * targetValue anim') <$> v,
              Some (Manual anim'))
      else view
  | _ => view
  end.

(** The curves in the words of the specification: progress, its square,
    progress times (2 - progress), and the quadratic blend, which is 2 p^2
    up to the midpoint and its mirror image 1 - 2 (1 - p)^2 after it. *)
Definition reference_curve (e : EasingType) (p : Q) : Q :=
  match e with
  | linear | spring => p
  | easeIn => p ^ 2
  | easeOut => p * (2 - p)
  | easeInOut => if Qltb p (1 # 2) then 2 * p ^ 2 else 1 - 2 * (1 - p) ^ 2
  end.

(** The slot a trigger event takes, if it takes one. *)
Definition allocates (hk : Hook) (st : Pool) (e : Event) : option nat :=
  match e with
  | Trigger _ => firstZeroIndex hk st
  | _ => None
  end.

(** No event of the run takes slot [idx] anew. *)
Fixpoint not_reused (hk : Hook) (idx : nat) (st : Pool) (events : list Event)
    : Prop :=
  match events with
  | [] => True
  | e :: events' =>
      allocates hk st e ≠ Some idx ∧ not_reused hk idx (step hk st e) events'
  end.

Definition is_frame (e : Event) : bool :=
  match e with Frame _ => true | _ => false end.

(** The same run with the frame loop switched off. *)
Definition without_frames (events : list Event) : list Event :=
  filter (fun e => is_frame e = false) events.

(** A buffer after writes that only went to its value at slot [j]. *)
Definition only_value (j : nat) (b b' : ShaderBuffer) : Prop :=
  activeBuffer b' = activeBuffer b
  /\ length (array (valuesBuffer b')) = length (array (valuesBuffer b))
  /\ forall i, i <> j ->
       array (valuesBuffer b') !! i = array (valuesBuffer b) !! i.

(** The slot is held by a spring: flagged, with the playback controls as
    its record. *)
Definition spring_driven (hk : Hook) (st : Pool) (idx : nat) : Prop :=
  exists a v,
    slot_view hk st idx = (Some a, v, Some MotionControls)
    /\ Qeq_bool a 0 = false.

Definition binary (v : Q) : Prop := v = 0 ∨ v = 1.

(** Every [active] array of the store holds only 0 and 1. *)
Definition flags_binary (st : Pool) : Prop :=
  Forall (fun b => Forall binary (array (activeBuffer b))) (store st).

End Observe.

(** ** Sample pools and grids *)

Module Sample.
Import StorageBuffers StorageTrigger.

(** [useStorageBuffers(['pulse', 'posX'], 2)], the hook animating [pulse]
    with [posX] as its data buffer. *)
Definition pool : Pool := initial (useStorageBuffers ["pulse"; "posX"] 2).1.

Definition hook : Hook := mkHook 0 (Some {[ "posX" := 1%nat ]}).

Definition no_options : TriggerOptions := mkOptions None None None None None.

(** [trigger({targetValue: 3, duration: 2, easing, data: {posX: 7}})]. *)
Definition options (e : EasingType) : TriggerOptions :=
  mkOptions (Some 3) (Some 2) (Some e) None (Some [("posX", 7 # 1)]).

(** Both slots taken. *)
Definition full : Pool :=
  run hook pool [Trigger no_options; Trigger no_options].

(** A linear animation to 3 over 2 seconds, first seen by the frame at
    clock time 1. *)
Definition running : Pool :=
  run hook pool [Trigger (options linear); Frame 1].

(** A 2 by 2 grid of ones and a brush two cells wide. *)
Definition props : GridTrail.UseGridTrailTextureProps :=
  GridTrail.mkProps 2 1 1 (1 # 2) 1 1.

Definition ones : GridTrail.DataTexture :=
  GridTrail.mkTexture (replicate 16 1) false.

(** No pointer over the canvas. *)
Definition idle : GridTrail.Trail :=
  GridTrail.mkTrail (Some ones) (Vec2.mk 0 0) (Vec2.mk 0 0) None None.

(** The pointer went from (1/2, 1) to (1, 1). *)
Definition moving : GridTrail.Trail :=
  GridTrail.mkTrail (Some ones) (Vec2.mk 0 0) (Vec2.mk (1 # 2) 1)
    (Some (Vec2.mk 1 1)) None.

Definition rect : GridTrail.DOMRect := GridTrail.mkRect 0 0 200 100.

Definition move : GridTrail.PointerEvent := GridTrail.mkEvent 50 50.

End Sample.

(** ** The record a call stores, and runs of the trail hook *)

Module Lifecycle.
Import StorageBuffers StorageTrigger.

(** What [trigger] puts into [animationsRef] for its options: the playback
    controls for a spring, else the manual record with start time 0. *)
Definition record_of (options : TriggerOptions) : Animation :=
  if EasingType_eqb (default linear (opt_easing options)) spring
  then MotionControls
  else Manual (mkAnimationState 0
                 (default (5 # 2) (opt_duration options))
                 (default linear (opt_easing options))
                 (default 1 (opt_targetValue options))).

(** A slot has a record exactly when its flag is 1. *)
Definition records_match_flags (hk : Hook) (st : Pool) : Prop :=
  forall i, is_Some (animationsRef st !! i) <-> Observe.active_at hk st i = Some 1.

End Lifecycle.

Module TrailRuns.
Import GridTrail.

(** The listeners the effect registers, and the frame callback. *)
Inductive TrailEvent : Type :=
  | PointerMove (canvas : option DOMRect) (event : PointerEvent)
  | PointerLeave
  | PointerUp
  | WindowBlur
  | WindowResize (canvas : option DOMRect)
  | WindowScroll (canvas : option DOMRect)
  | Tick.

(** The error an event's handler throws, if it throws. *)
Definition thrown (st : Trail) (e : TrailEvent) : option string :=
  match e with
  | PointerMove canvas event => (handlePointerMove canvas event st).2
  | _ => None
  end.

Definition is_reset (e : TrailEvent) : bool :=
  match e with PointerUp | WindowBlur => true | _ => false end.

(** The same events without the [resetVelocity] listeners. *)
Definition without_resets (events : list TrailEvent) : list TrailEvent :=
  filter (fun e => is_reset e = false) events.

(** The same refs with another stored velocity. *)
Definition with_velocity (v : Vec2.t) (st : Trail) : Trail :=
  mkTrail (dataTextureRef st) v (pointerRef st) (rawPointerRef st)
    (canvasBoundsRef st).

Section Runs.
Context {M : MathLib}.

(** What lines 278-297 add to red, green and blue of a cell the brush
    reaches with force [force]. *)
Definition deposit_rgb (p : UseGridTrailTextureProps) (velocity : Vec2.t)
    (force : Q) : Q * Q * Q :=
  let size := grid p in
  let vxGrid := Vec2.x velocity * (num size / 2) in
  let vyGrid := - Vec2.y velocity * (num size / 2) in
  let speedGrid := Math_hypot vxGrid vyGrid in
  let vxCurved := Math_sign vxGrid * Math_pow (Qabs vxGrid) (influenceGamma p) in
  let vyCurved := Math_sign vyGrid * Math_pow (Qabs vyGrid) (influenceGamma p) in
  let speedCurved := Math_pow speedGrid (influenceGamma p) in
  let scale := influenceGain p * strength p * force in
  let dispBase := scale * speedCurved in
  let len :=
    let h := Math_hypot vxCurved vyCurved in
    if Qeq_bool h 0 then 1 else h in
  let ndx := vxCurved / len in
  let ndy := vyCurved / len in
  (dispBase * - ndx, dispBase * ndy, scale * speedCurved).

(** The share of channel [k] (0 red, 1 green, else blue) in a deposit. *)
Definition channel_of (rgb : Q * Q * Q) (k : nat) : Q :=
  match k with
  | 0%nat => rgb.1.1
  | 1%nat => rgb.1.2
  | _ => rgb.2
  end.

(** The effect body: [updateCanvasBounds(); regenerateGrid()]. *)
Definition mount (canvas : option DOMRect) (p : UseGridTrailTextureProps) : Trail :=
  regenerateGrid p (updateCanvasBounds canvas mounted).

Definition trail_step (p : UseGridTrailTextureProps) (st : Trail)
    (e : TrailEvent) : Trail :=
  match e with
  | PointerMove canvas event => (handlePointerMove canvas event st).1
  | PointerLeave => handlePointerLeave st
  | PointerUp | WindowBlur => resetVelocity st
  | WindowResize canvas | WindowScroll canvas => updateCanvasBounds canvas st
  | Tick => useFrame p st
  end.

Definition trail_run (p : UseGridTrailTextureProps) (st : Trail)
    (events : list TrailEvent) : Trail :=
  foldl (trail_step p) st events.

(** The texture [regenerateGrid] allocates keeps its shape: four floats per
    cell of the grid, alpha at zero. *)
Definition grid_shaped (p : UseGridTrailTextureProps) (st : Trail) : Prop :=
  exists dt,
    dataTextureRef st = Some dt
    /\ length (data dt) = (4 * (grid p * grid p))%nat
    /\ forall c, (c < grid p * grid p)%nat -> data dt !! (4 * c + 3)%nat = Some 0.

(** [n] frames in a row. *)
Definition ticks (p : UseGridTrailTextureProps) (n : nat) (st : Trail) : Trail :=
  Nat.iter n (useFrame p) st.

End Runs.

End TrailRuns.

(** * Properties *)

Import StorageBuffers StorageTrigger Observe.

Section Numbers.

Lemma Qltb_lt (a b : Q) : Qltb a b = true <-> a < b.
Proof.
  unfold Qltb. rewrite negb_true_iff. split.
  - intros Hf. apply Qnot_le_lt. intros Hle.
    apply Qle_bool_iff in Hle. congruence.
  - intros Hlt. destruct (Qle_bool b a) eqn:E; [|reflexivity].
    apply Qle_bool_iff in E. lra.
Qed.

Lemma Qltb_ge (a b : Q) : Qltb a b = false <-> b <= a.
Proof.
  unfold Qltb. rewrite negb_false_iff. apply Qle_bool_iff.
Qed.

Lemma Qle_bool_false (a b : Q) : Qle_bool a b = false <-> b < a.
Proof.
  split.
  - intros Hf. apply Qnot_le_lt. intros Hle.
    apply Qle_bool_iff in Hle. congruence.
  - intros Hlt. destruct (Qle_bool a b) eqn:E; [|reflexivity].
    apply Qle_bool_iff in E. lra.
Qed.

End Numbers.

Section FindIndex.
Context {A : Type} (p : A -> bool).

Lemma findIndex_None (l : list A) :
  findIndex p l = None <-> Forall (fun v => p v = false) l.
Proof.
  induction l as [|v l IH]; simpl.
  - split; [constructor | reflexivity].
  - destruct (p v) eqn:E.
    + split; [discriminate|]. intros Hall. inversion Hall. congruence.
    + rewrite fmap_None, IH. split.
      * intros Hall. by constructor.
      * intros Hall. by inversion Hall.
Qed.

Lemma findIndex_Some (l : list A) (i : nat) :
  findIndex p l = Some i ->
  (exists v, l !! i = Some v /\ p v = true)
  /\ (forall j v, (j < i)%nat -> l !! j = Some v -> p v = false).
Proof.
  revert i. induction l as [|v l IH]; simpl; intros i Hi; [discriminate|].
  destruct (p v) eqn:E.
  - inversion Hi; subst. split; [by exists v | intros j w Hj; lia].
  - apply fmap_Some in Hi as (k & Hk & ->).
    destruct (IH k Hk) as [Hfound Hfirst]. split; [exact Hfound|].
    intros [|j] w Hj Hw; simpl in Hw.
    + congruence.
    + apply (Hfirst j); [lia | exact Hw].
Qed.

End FindIndex.

Section SlotViews.
Variable hk : Hook.

Lemma lookup_insert_const (l : list Q) (i : nat) (v : Q) :
  <[i := v]> l !! i = (fun _ => v) <$> l !! i.
Proof.
  destruct (l !! i) eqn:E; simpl.
  - apply list_lookup_insert_eq. by eapply lookup_lt_Some.
  - apply list_lookup_insert_None. exact E.
Qed.

(** The views of a state whose animated buffer went through [write_eased]
    or [release]. *)
Lemma slot_view_write_eased (now : Q) (i : nat) (anim : AnimationState) (st : Pool) :
  slot_view hk (write_eased hk now i anim st) i
  = (active_at hk st i,
     (fun _ => easedProgress (easing (started anim now))
                 (progress_of (started anim now) now)
               * targetValue (started anim now)) <$> value_at hk st i,
     Some (Manual (started anim now))).
Proof.
  unfold slot_view, write_eased. f_equal; [f_equal|].
  - unfold active_at; simpl. rewrite list_lookup_alter_eq.
    by destruct (store st !! buffer hk).
  - unfold value_at, data_at; simpl. rewrite list_lookup_alter_eq.
    destruct (store st !! buffer hk); simpl; [|done].
    apply lookup_insert_const.
  - simpl. apply lookup_insert_eq.
Qed.

Lemma slot_view_release (i : nat) (st : Pool) :
  slot_view hk (release hk i st) i
  = ((fun _ => 0) <$> active_at hk st i, (fun _ => 0) <$> value_at hk st i, None).
Proof.
  unfold slot_view, release. f_equal; [f_equal|].
  - unfold active_at; simpl. rewrite list_lookup_alter_eq.
    destruct (store st !! buffer hk); simpl; [|done].
    apply lookup_insert_const.
  - unfold value_at, data_at; simpl. rewrite list_lookup_alter_eq.
    destruct (store st !! buffer hk); simpl; [|done].
    apply lookup_insert_const.
  - simpl. apply lookup_delete_eq.
Qed.

Lemma slot_view_write_eased_ne (now : Q) (i j : nat) (anim : AnimationState) (st : Pool) :
  i <> j ->
  slot_view hk (write_eased hk now j anim st) i = slot_view hk st i.
Proof.
  intros Hne. unfold slot_view, write_eased. f_equal; [f_equal|].
  - unfold active_at; simpl. rewrite list_lookup_alter_eq.
    by destruct (store st !! buffer hk).
  - unfold value_at, data_at; simpl. rewrite list_lookup_alter_eq.
    destruct (store st !! buffer hk); simpl; [|done].
    by apply list_lookup_insert_ne.
  - simpl. by apply lookup_insert_ne.
Qed.

Lemma slot_view_release_ne (i j : nat) (st : Pool) :
  i <> j ->
  slot_view hk (release hk j st) i = slot_view hk st i.
Proof.
  intros Hne. unfold slot_view, release. f_equal; [f_equal|].
  - unfold active_at; simpl. rewrite list_lookup_alter_eq.
    destruct (store st !! buffer hk); simpl; [|done].
    by apply list_lookup_insert_ne.
  - unfold value_at, data_at; simpl. rewrite list_lookup_alter_eq.
    destruct (store st !! buffer hk); simpl; [|done].
    by apply list_lookup_insert_ne.
  - simpl. by apply lookup_delete_ne.
Qed.

(** One iteration, seen at the slot it visits and at any other slot. *)
Lemma slot_view_advance_same (now : Q) (st : Pool) (i : nat) :
  slot_view hk (advance_slot hk now st i) i = advance_view now (slot_view hk st i).
Proof.
  unfold advance_slot.
  destruct (store st !! buffer hk) as [buf|] eqn:Hbuf.
  - assert (Hact : active_at hk st i = array (activeBuffer buf) !! i)
      by (unfold active_at; by rewrite Hbuf).
    destruct (array (activeBuffer buf) !! i) as [a|] eqn:Ha.
    + destruct (animationsRef st !! i) as [[anim|]|] eqn:Hrec.
      * unfold advance_view, slot_view at 2. rewrite Hact, Hrec.
        destruct (Qeq_bool a 1); simpl;
          [|unfold slot_view; by rewrite Hact, Hrec].
        destruct (EasingType_eqb (easing anim) spring); simpl;
          [unfold slot_view; by rewrite Hact, Hrec|].
        destruct (Qle_bool 1 (progress_of (started anim now) now)).
        -- rewrite slot_view_release.
           pose proof (slot_view_write_eased now i anim st) as Hw.
           unfold slot_view in Hw. inversion Hw as [[Hwa Hwv Hwr]].
           rewrite Hwa, Hwv, Hact. simpl.
           by destruct (value_at hk st i).
        -- rewrite slot_view_write_eased. by rewrite Hact.
      * unfold advance_view, slot_view at 2. rewrite Hact, Hrec.
        destruct (Qeq_bool a 1); unfold slot_view; by rewrite Hact, Hrec.
      * unfold advance_view, slot_view at 2. rewrite Hact, Hrec.
        destruct (Qeq_bool a 1); unfold slot_view; by rewrite Hact, Hrec.
    + unfold advance_view, slot_view. by rewrite Hact.
  - unfold advance_view, slot_view, active_at. by rewrite Hbuf.
Qed.

Lemma slot_view_advance_other (now : Q) (st : Pool) (i j : nat) :
  i <> j ->
  slot_view hk (advance_slot hk now st j) i = slot_view hk st i.
Proof.
  intros Hne. unfold advance_slot.
  destruct (store st !! buffer hk) as [buf|]; [|done].
  destruct (array (activeBuffer buf) !! j) as [a|]; [|done].
  destruct (Qeq_bool a 1); [|done].
  destruct (animationsRef st !! j) as [[anim|]|]; [|done|done].
  destruct (negb (EasingType_eqb (easing anim) spring)); [|done].
  destruct (Qle_bool 1 (progress_of (started anim now) now)).
  - rewrite slot_view_release_ne by done. by apply slot_view_write_eased_ne.
  - by apply slot_view_write_eased_ne.
Qed.

Lemma slot_view_loop_skip (now : Q) (i : nat) (l : list nat) (st : Pool) :
  i ∉ l ->
  slot_view hk (foldl (advance_slot hk now) st l) i = slot_view hk st i.
Proof.
  revert st. induction l as [|j l IH]; intros st Hnot; simpl; [done|].
  rewrite IH by set_solver.
  apply slot_view_advance_other. set_solver.
Qed.

Lemma slot_view_loop_visit (now : Q) (i : nat) (l : list nat) (st : Pool) :
  NoDup l -> i ∈ l ->
  slot_view hk (foldl (advance_slot hk now) st l) i
  = advance_view now (slot_view hk st i).
Proof.
  revert st. induction l as [|j l IH]; intros st Hnd Hin; simpl.
  - set_solver.
  - apply NoDup_cons in Hnd as [Hj Hnd].
    destruct (decide (i = j)) as [->|Hne].
    + rewrite slot_view_loop_skip by done. apply slot_view_advance_same.
    + apply elem_of_cons in Hin as [Heq|Hin]; [done|].
      rewrite IH by done.
      by rewrite slot_view_advance_other.
Qed.

(** The frame loop does to every slot what its iteration for that slot does. *)
Lemma slot_view_useFrame (now : Q) (st : Pool) (i : nat) :
  slot_view hk (useFrame hk now st) i = advance_view now (slot_view hk st i).
Proof.
  unfold useFrame.
  destruct (store st !! buffer hk) as [buf|] eqn:Hbuf.
  - destruct (decide (i < length (array (activeBuffer buf)))%nat) as [Hlt|Hge].
    + apply slot_view_loop_visit; [apply NoDup_seq|].
      apply elem_of_seq. lia.
    + rewrite slot_view_loop_skip by (rewrite elem_of_seq; lia).
      unfold advance_view, slot_view, active_at. rewrite Hbuf. simpl.
      rewrite (lookup_ge_None_2 _ i); [done | lia].
  - unfold advance_view, slot_view, active_at. by rewrite Hbuf.
Qed.

End SlotViews.

Section Easing.

Lemma easedProgress_reference (e : EasingType) (p : Q) :
  easedProgress e p == reference_curve e p.
Proof.
  destruct e; unfold easedProgress, reference_curve; simpl; try ring.
  destruct (Qltb p (1 # 2)); simpl; ring.
Qed.

Lemma easedProgress_end (e : EasingType) (p : Q) :
  p == 1 -> easedProgress e p == 1.
Proof.
  intros Hp. destruct e; unfold easedProgress; try (rewrite Hp; reflexivity).
  assert (Hge : Qltb p (1 # 2) = false) by (apply Qltb_ge; lra).
  rewrite Hge, Hp. reflexivity.
Qed.

Lemma progress_of_le_1 (anim : AnimationState) (now : Q) :
  progress_of anim now <= 1.
Proof. unfold progress_of. apply Q.le_min_r. Qed.

(** Once the elapsed time has reached a positive duration, progress is 1. *)
Lemma progress_of_done (anim : AnimationState) (now : Q) :
  0 < duration anim ->
  duration anim <= now - startTime anim ->
  progress_of anim now == 1.
Proof.
  intros Hpos Hreach. unfold progress_of. apply Q.min_r.
  apply Qle_shift_div_l; [exact Hpos | lra].
Qed.

End Easing.

(** C1.  When no entry of the [active] array is zero, [trigger] returns
    normally, and all it changed is the console: the store (the [active] and
    [values] arrays and every data buffer, with their upload flags), the
    animation records and the springs started are the ones before the call,
    and the console has the warning appended. *)
Theorem trigger_on_full_pool (hk : Hook) (options : TriggerOptions)
    (st : Pool) (buf : ShaderBuffer) :
  store st !! buffer hk = Some buf ->
  Forall (fun v => ~ v == 0) (array (activeBuffer buf)) ->
  exists st',
    trigger hk options st = Normal st'
    /\ store st' = store st
    /\ animationsRef st' = animationsRef st
    /\ motion st' = motion st
    /\ console st' = console st ++ [buffer_full].
Proof.
  intros Hbuf Hfull. exists (warn buffer_full st).
  split; [|by repeat split].
  unfold trigger. rewrite Hbuf.
  assert (Hnone : findIndex (fun value => Qeq_bool value 0) (array (activeBuffer buf)) = None).
  { apply findIndex_None. eapply Forall_impl; [exact Hfull|].
    intros v Hv. simpl. destruct (Qeq_bool v 0) eqn:E; [|done].
    apply Qeq_bool_eq in E. contradiction. }
  by rewrite Hnone.
Qed.

Lemma trigger_on_full_pool_witness :
  exists st',
    trigger Sample.hook (Sample.options easeOut) Sample.full = Normal st'
    /\ store st' = store Sample.full
    /\ animationsRef st' = animationsRef Sample.full
    /\ motion st' = motion Sample.full
    /\ console st' = console Sample.full ++ [buffer_full].
Proof.
  apply (trigger_on_full_pool Sample.hook (Sample.options easeOut) Sample.full
           (mkShaderBuffer (mkAttribute [1; 1] true) (mkAttribute [0; 0] false))).
  - reflexivity.
  - repeat constructor; simpl; lra.
Defined.



(** C2, as the code has it.  For an active slot with a manual record of
    positive duration D and target V, on a frame whose elapsed time has
    reached D the progress is 1, line 154 writes 1 times V, a number equal
    to V, and the cleanup of the same frame then sets the slot's value and
    its active flag to 0 and drops the record: after that frame the slot
    reads value 0, active 0, no record.  A frame whose elapsed time is
    still below D leaves the flag and the record in place. *)
Theorem manual_completion (hk : Hook) (now : Q) (st : Pool) (i : nat)
    (a v : Q) (anim : AnimationState) :
  slot_view hk st i = (Some a, Some v, Some (Manual anim)) ->
  a == 1 ->
  easing anim <> spring ->
  0 < duration anim ->
  duration anim <= now - startTime (started anim now) ->
  progress_of (started anim now) now == 1
  /\ (exists w, value_at hk (write_eased hk now i anim st) i = Some w
                /\ w == targetValue anim)
  /\ slot_view hk (useFrame hk now st) i = (Some 0, Some 0, None)
  /\ (forall earlier,
        earlier - startTime (started anim earlier) < duration anim ->
        exists w,
          slot_view hk (useFrame hk earlier st) i
          = (Some a, Some w, Some (Manual (started anim earlier)))).
Proof.
  intros Hview Ha Hmanual Hpos Hreach.
  assert (Hsp : EasingType_eqb (easing anim) spring = false)
    by (destruct (easing anim); done).
  assert (Hdur : duration (started anim now) = duration anim)
    by (unfold started; by destruct (Qeq_bool (startTime anim) 0)).
  assert (Heas : easing (started anim now) = easing anim)
    by (unfold started; by destruct (Qeq_bool (startTime anim) 0)).
  assert (Htgt : targetValue (started anim now) = targetValue anim)
    by (unfold started; by destruct (Qeq_bool (startTime anim) 0)).
  assert (Hp : progress_of (started anim now) now == 1)
    by (apply progress_of_done; rewrite Hdur; done).
  split; [exact Hp|]. split; [|split].
  - pose proof (slot_view_write_eased hk now i anim st) as Hw.
    unfold slot_view in Hw, Hview.
    injection Hw as Hwa Hwv Hwr. injection Hview as Hva Hvv Hvr.
    rewrite Hwv, Hvv. simpl. eexists; split; [reflexivity|].
    rewrite Htgt, (easedProgress_end _ _ Hp). ring.
  - rewrite slot_view_useFrame, Hview. unfold advance_view.
    rewrite (Qeq_eq_bool _ _ Ha), Hsp. simpl.
    assert (Hle : Qle_bool 1 (progress_of (started anim now) now) = true)
      by (apply Qle_bool_iff; lra).
    by rewrite Hle.
  - intros earlier Hearly.
    rewrite slot_view_useFrame, Hview. unfold advance_view.
    rewrite (Qeq_eq_bool _ _ Ha), Hsp. simpl.
    assert (Hlt : Qle_bool 1 (progress_of (started anim earlier) earlier) = false).
    { apply Qle_bool_false. unfold progress_of. apply Q.min_lt_iff. left.
      assert (Hd : duration (started anim earlier) = duration anim)
        by (unfold started; by destruct (Qeq_bool (startTime anim) 0)).
      rewrite Hd. apply Qlt_shift_div_r; [exact Hpos | lra]. }
    rewrite Hlt. by eexists.
Qed.

Lemma manual_completion_witness :
  progress_of (started (mkAnimationState 1 2 linear 3) 3) 3 == 1
  /\ (exists w, value_at Sample.hook
                  (write_eased Sample.hook 3 0 (mkAnimationState 1 2 linear 3)
                     Sample.running) 0 = Some w
                /\ w == 3)
  /\ slot_view Sample.hook (useFrame Sample.hook 3 Sample.running) 0
     = (Some 0, Some 0, None).
Proof.
  destruct (manual_completion Sample.hook 3 Sample.running 0 1 (0 # 2)
              (mkAnimationState 1 2 linear 3))
    as (Hprogress & Hwrite & Hfreed & _).
  - reflexivity.
  - reflexivity.
  - discriminate.
  - reflexivity.
  - simpl. lra.
  - split; [exact Hprogress|]. split; [exact Hwrite | exact Hfreed].
Defined.

(** C2 as stated fails: the animation to 3 over 2 seconds that started at
    clock time 1 is sampled by the frame at clock time 3, elapsed 2, and the
    slot's value after that frame is 0, not 3. *)
Lemma manual_completion_value_counterexample :
  slot_view Sample.hook Sample.running 0
  = (Some 1, Some (0 # 2), Some (Manual (mkAnimationState 1 2 linear 3)))
  /\ 2 <= 3 - 1
  /\ value_at Sample.hook (useFrame Sample.hook 3 Sample.running) 0 = Some 0
  /\ ~ (exists w,
          value_at Sample.hook (useFrame Sample.hook 3 Sample.running) 0 = Some w
          /\ Qabs (w - 3) < 3).
Proof.
  split; [reflexivity|]. split; [simpl; lra|]. split; [reflexivity|].
  intros (w & Hw & Hnear).
  assert (Hzero : w = 0) by (vm_compute in Hw; congruence).
  subst w. vm_compute in Hnear. discriminate.
Qed.

Section TriggerEffects.
Variable hk : Hook.

Lemma only_value_refl (j : nat) (b : ShaderBuffer) : only_value j b b.
Proof. by repeat split. Qed.

Lemma only_value_setValue (j : nat) (v : Q) (b b' : ShaderBuffer) :
  only_value j b b' -> only_value j b (setValue j v b').
Proof.
  intros (Hact & Hlen & Hval). split; [exact Hact|]. split.
  - simpl. by rewrite length_insert.
  - intros i Hi. simpl. rewrite list_lookup_insert_ne by done. by apply Hval.
Qed.

Lemma only_value_store_refl (j : nat) (s : Store) :
  Forall2 (only_value j) s s.
Proof. induction s; constructor; [apply only_value_refl | done]. Qed.

Lemma only_value_store_data (dbs : gmap string nat) (j : nat)
    (data : list (string * Q)) (s0 s : Store) :
  Forall2 (only_value j) s0 s ->
  Forall2 (only_value j) s0 (foldl (store_data dbs j) s data).
Proof.
  revert s. induction data as [|entry data IH]; intros s Hrel; simpl; [done|].
  apply IH. unfold store_data. destruct (dbs !! entry.1) as [id|]; [|done].
  apply Forall2_alter_r; [done|].
  intros b b' _ _ Hb. by apply only_value_setValue.
Qed.

(** An entry that lands in another buffer leaves this one alone. *)
Lemma store_data_other (dbs : gmap string nat) (j id : nat)
    (data : list (string * Q)) (s : Store) :
  (forall e, e ∈ data -> dbs !! e.1 <> Some id) ->
  foldl (store_data dbs j) s data !! id = s !! id.
Proof.
  revert s. induction data as [|entry data IH]; intros s Hother; simpl; [done|].
  rewrite IH by (intros e He; apply Hother; set_solver).
  unfold store_data. destruct (dbs !! entry.1) as [id'|] eqn:E; [|done].
  apply list_lookup_alter_ne. intros ->.
  apply (Hother entry); [set_solver | done].
Qed.

(** What a call that finds slot [idx] free does. *)
Lemma trigger_allocates (options : TriggerOptions) (st : Pool) (idx : nat) :
  firstZeroIndex hk st = Some idx ->
  exists st',
    trigger hk options st = Normal st'
    /\ Forall2 (only_value idx)
         (alter (setActive idx 1) (buffer hk) (store st)) (store st')
    /\ animationsRef st'
       = <[idx :=
             if EasingType_eqb (default linear (opt_easing options)) spring
             then MotionControls
             else Manual (mkAnimationState 0
                            (default (5 # 2) (opt_duration options))
                            (default linear (opt_easing options))
                            (default 1 (opt_targetValue options)))]>
           (animationsRef st)
    /\ console st' = console st
    /\ motion st'
       = motion st ++
         (if EasingType_eqb (default linear (opt_easing options)) spring
          then [mkSpringStart idx (default 1 (opt_targetValue options))
                  (default (mkSpringConfig 100 10) (opt_springConfig options))]
          else []).
Proof.
  unfold firstZeroIndex, trigger. intros Hfree.
  destruct (store st !! buffer hk) as [buf|]; [|discriminate].
  simpl in Hfree. rewrite Hfree.
  eexists; split; [reflexivity|].
  destruct (EasingType_eqb (default linear (opt_easing options)) spring);
    destruct (dataBuffers hk) as [dbs|]; simpl;
    repeat split;
    try (apply only_value_store_data);
    try (apply only_value_store_refl);
    by rewrite ?app_nil_r.
Qed.

(** What a call that finds no free slot, or no buffer, does. *)
Lemma trigger_rejected (options : TriggerOptions) (st : Pool) :
  firstZeroIndex hk st = None ->
  trigger hk options st = Normal (warn buffer_full st)
  \/ trigger hk options st = Throw "TypeError".
Proof.
  unfold firstZeroIndex, trigger. intros Hnone.
  destruct (store st !! buffer hk) as [buf|]; [|by right].
  simpl in Hnone. rewrite Hnone. by left.
Qed.

Lemma firstZeroIndex_free (st : Pool) (idx : nat) :
  firstZeroIndex hk st = Some idx ->
  exists a, active_at hk st idx = Some a /\ Qeq_bool a 0 = true.
Proof.
  unfold firstZeroIndex, active_at.
  destruct (store st !! buffer hk) as [buf|]; [|discriminate]. simpl.
  intros Hfree. by apply findIndex_Some in Hfree as [Hfound _].
Qed.

Section Allocated.
Variables (options : TriggerOptions) (st st' : Pool) (idx : nat).
Hypothesis Hfree : firstZeroIndex hk st = Some idx.
Hypothesis Hcall : trigger hk options st = Normal st'.

Lemma trigger_store_shape :
  Forall2 (only_value idx)
    (alter (setActive idx 1) (buffer hk) (store st)) (store st').
Proof.
  destruct (trigger_allocates options st idx Hfree) as (st2 & Heq & Hrel & _).
  rewrite Heq in Hcall. by injection Hcall as <-.
Qed.

Lemma trigger_record :
  animationsRef st'
  = <[idx :=
        if EasingType_eqb (default linear (opt_easing options)) spring
        then MotionControls
        else Manual (mkAnimationState 0
                       (default (5 # 2) (opt_duration options))
                       (default linear (opt_easing options))
                       (default 1 (opt_targetValue options)))]>
      (animationsRef st).
Proof.
  destruct (trigger_allocates options st idx Hfree) as (st2 & Heq & _ & Hrec & _).
  rewrite Heq in Hcall. by injection Hcall as <-.
Qed.

Lemma trigger_active_at (i : nat) :
  active_at hk st' i
  = (buf ← store st !! buffer hk; <[idx := 1]> (array (activeBuffer buf)) !! i).
Proof.
  pose proof trigger_store_shape as Hrel.
  apply Forall2_lookup with (i := buffer hk) in Hrel.
  rewrite list_lookup_alter_eq in Hrel. unfold active_at.
  destruct (store st !! buffer hk) as [buf|]; simpl in *;
    inversion Hrel as [b1 b2 [Hact _]|]; subst; simpl; [|done].
  by rewrite Hact.
Qed.

Lemma trigger_data_at (id i : nat) :
  i <> idx -> data_at st' id i = data_at st id i.
Proof.
  intros Hne. pose proof trigger_store_shape as Hrel.
  apply Forall2_lookup with (i := id) in Hrel.
  rewrite list_lookup_alter in Hrel. unfold data_at.
  destruct (decide (buffer hk = id)) as [->|Hother].
  - destruct (store st !! id) as [buf|]; simpl in *;
      inversion Hrel as [b1 b2 (_ & _ & Hval)|]; subst; simpl; [|done].
    by rewrite Hval.
  - destruct (store st !! id) as [buf|]; simpl in *;
      inversion Hrel as [b1 b2 (_ & _ & Hval)|]; subst; simpl; [|done].
    by rewrite Hval.
Qed.

(** The call leaves every other slot as it was. *)
Lemma trigger_slot_view_other (i : nat) :
  i <> idx -> slot_view hk st' i = slot_view hk st i.
Proof.
  intros Hne. unfold slot_view. f_equal; [f_equal|].
  - rewrite trigger_active_at. unfold active_at.
    destruct (store st !! buffer hk); simpl; [|done].
    by apply list_lookup_insert_ne.
  - by apply trigger_data_at.
  - rewrite trigger_record. by apply lookup_insert_ne.
Qed.

End Allocated.

End TriggerEffects.

Section SpringSlots.
Variable hk : Hook.

Lemma slot_view_warn (message : string) (st : Pool) (i : nat) :
  slot_view hk (warn message st) i = slot_view hk st i.
Proof. reflexivity. Qed.

Lemma slot_view_onUpdate (idx : nat) (v : Q) (st : Pool) :
  slot_view hk (onUpdate hk idx v st) idx
  = (active_at hk st idx, (fun _ => v) <$> value_at hk st idx,
     animationsRef st !! idx).
Proof.
  unfold slot_view, onUpdate. do 2 f_equal.
  - unfold active_at; simpl. rewrite list_lookup_alter_eq.
    by destruct (store st !! buffer hk).
  - unfold value_at, data_at; simpl. rewrite list_lookup_alter_eq.
    destruct (store st !! buffer hk); simpl; [|done].
    apply lookup_insert_const.
Qed.

Lemma slot_view_onUpdate_ne (i idx : nat) (v : Q) (st : Pool) :
  i <> idx ->
  slot_view hk (onUpdate hk idx v st) i = slot_view hk st i.
Proof.
  intros Hne. unfold slot_view, onUpdate. do 2 f_equal.
  - unfold active_at; simpl. rewrite list_lookup_alter_eq.
    by destruct (store st !! buffer hk).
  - unfold value_at, data_at; simpl. rewrite list_lookup_alter_eq.
    destruct (store st !! buffer hk); simpl; [|done].
    by apply list_lookup_insert_ne.
Qed.

(** A slot held by a spring is not free, so no call takes it. *)
Lemma spring_driven_not_free (st : Pool) (idx : nat) :
  spring_driven hk st idx -> firstZeroIndex hk st <> Some idx.
Proof.
  intros (a & v & Hview & Hnz) Hfree.
  apply firstZeroIndex_free in Hfree as (a' & Ha' & Hz).
  unfold slot_view in Hview. injection Hview as Ha _ _. congruence.
Qed.

Lemma slot_view_trigger_spring (options : TriggerOptions) (st : Pool) (idx : nat) :
  spring_driven hk st idx ->
  slot_view hk (step hk st (Trigger options)) idx = slot_view hk st idx.
Proof.
  intros Hspring. simpl.
  destruct (firstZeroIndex hk st) as [j|] eqn:Hfree.
  - destruct (trigger_allocates hk options st j Hfree) as (st' & Hcall & _).
    rewrite Hcall. apply (trigger_slot_view_other hk options st st' j Hfree Hcall).
    intros ->. by apply (spring_driven_not_free st j).
  - destruct (trigger_rejected hk options st Hfree) as [-> | ->]; done.
Qed.

(** The frame loop leaves a spring's slot as it found it. *)
Lemma slot_view_frame_spring (now : Q) (st : Pool) (idx : nat) :
  animationsRef st !! idx = Some MotionControls ->
  slot_view hk (useFrame hk now st) idx = slot_view hk st idx.
Proof.
  intros Hrec. rewrite slot_view_useFrame.
  unfold advance_view, slot_view. rewrite Hrec.
  by destruct (active_at hk st idx).
Qed.

(** Any event but the slot's own callbacks leaves a spring's slot alone. *)
Lemma slot_view_step_spring (st : Pool) (e : Event) (idx : nat) :
  spring_driven hk st idx ->
  (forall v, e <> SpringUpdate idx v) ->
  e <> SpringComplete idx ->
  slot_view hk (step hk st e) idx = slot_view hk st idx.
Proof.
  intros Hspring Hupd Hcompl. destruct e as [options|now|k v|k].
  - by apply slot_view_trigger_spring.
  - destruct Hspring as (a & v & Hview & _).
    apply slot_view_frame_spring.
    unfold slot_view in Hview. by injection Hview.
  - apply slot_view_onUpdate_ne. intros ->. by apply (Hupd v).
  - apply slot_view_release_ne. intros ->. by apply Hcompl.
Qed.

Lemma spring_driven_view (st1 st2 : Pool) (idx : nat) :
  slot_view hk st1 idx = slot_view hk st2 idx ->
  spring_driven hk st1 idx -> spring_driven hk st2 idx.
Proof.
  intros Heq (a & v & Hview & Hnz). exists a, v. by rewrite <- Heq.
Qed.

Lemma own_update_or_not (e : Event) (idx : nat) :
  (exists v, e = SpringUpdate idx v) \/ (forall v, e <> SpringUpdate idx v).
Proof.
  destruct e as [options|now|k v|k]; try (right; discriminate).
  destruct (decide (k = idx)) as [->|Hne].
  - left. by exists v.
  - right. intros w Heq. injection Heq as -> _. done.
Qed.

Lemma spring_driven_step (st : Pool) (e : Event) (idx : nat) :
  spring_driven hk st idx ->
  e <> SpringComplete idx ->
  spring_driven hk (step hk st e) idx.
Proof.
  intros Hspring Hcompl.
  destruct (own_update_or_not e idx) as [[v ->]|Hother].
  - destruct Hspring as (a & v0 & Hview & Hnz).
    exists a, ((fun _ => v) <$> v0). split; [|done].
    simpl. rewrite slot_view_onUpdate.
    unfold slot_view in Hview. injection Hview as -> -> ->. done.
  - apply (spring_driven_view st); [|done].
    symmetry. by apply slot_view_step_spring.
Qed.

(** Running with and without the frame loop shows the same spring slot. *)
Lemma spring_slot_frames_irrelevant (idx : nat) (events : list Event) :
  forall st1 st2,
    slot_view hk st1 idx = slot_view hk st2 idx ->
    spring_driven hk st1 idx ->
    Forall (fun e => e <> SpringComplete idx) events ->
    slot_view hk (run hk st1 events) idx
    = slot_view hk (run hk st2 (without_frames events)) idx.
Proof.
  induction events as [|e events IH]; intros st1 st2 Heq Hspring Hall; [done|].
  apply Forall_cons in Hall as [He Hall].
  pose proof (spring_driven_view st1 st2 idx Heq Hspring) as Hspring2.
  unfold without_frames. destruct (is_frame e) eqn:Hframe.
  - rewrite filter_cons_False by (rewrite Hframe; done).
    simpl. apply IH; [|by apply spring_driven_step|done].
    rewrite <- Heq. apply slot_view_step_spring; [done| |done].
    intros v ->. discriminate.
  - rewrite filter_cons_True by done.
    simpl. apply IH; [|by apply spring_driven_step|done].
    destruct (own_update_or_not e idx) as [[v ->]|Hother].
    + simpl. rewrite !slot_view_onUpdate.
      unfold slot_view in Heq. by injection Heq as -> -> ->.
    + by rewrite !slot_view_step_spring.
Qed.

End SpringSlots.

Section SpringRuns.
Variable hk : Hook.

Lemma spring_driven_run (idx : nat) (events : list Event) :
  forall st,
    spring_driven hk st idx ->
    Forall (fun e => e <> SpringComplete idx) events ->
    spring_driven hk (run hk st events) idx.
Proof.
  induction events as [|e events IH]; intros st Hspring Hall; [done|].
  apply Forall_cons in Hall as [He Hall].
  simpl. apply IH; [|done]. by apply spring_driven_step.
Qed.

(** A call with easing [spring] that finds slot [idx] free leaves it
    spring driven. *)
Lemma trigger_spring_driven (options : TriggerOptions) (st st' : Pool) (idx : nat) :
  opt_easing options = Some spring ->
  firstZeroIndex hk st = Some idx ->
  trigger hk options st = Normal st' ->
  spring_driven hk st' idx /\ active_at hk st' idx = Some 1.
Proof.
  intros Heasing Hfree Hcall.
  assert (Hact : active_at hk st' idx = Some 1).
  { rewrite (trigger_active_at hk options st st' idx Hfree Hcall).
    apply firstZeroIndex_free in Hfree as (a & Ha & _).
    unfold active_at in Ha.
    destruct (store st !! buffer hk) as [buf|]; [|discriminate]. simpl in *.
    apply list_lookup_insert_eq. by eapply lookup_lt_Some. }
  split; [|exact Hact].
  exists 1, (value_at hk st' idx). split; [|reflexivity].
  unfold slot_view. rewrite Hact.
  rewrite (trigger_record hk options st st' idx Hfree Hcall), Heasing. simpl.
  by rewrite lookup_insert_eq.
Qed.

End SpringRuns.

(** C6.  A call with easing [spring] that takes slot [idx] stores the
    playback controls, not a manual record, and starts one spring for that
    slot.  The frame loop leaves the flag, the value and the record of any
    slot whose record is the playback controls as they were.  Until the
    spring completes, no event but its own [onUpdate] and [onComplete]
    changes the slot, and a run shows the same slot with the frames removed
    from it.  [onUpdate] writes the value; [onComplete] clears the flag and
    the value and drops the record. *)
Theorem spring_slot_not_advanced (hk : Hook) (options : TriggerOptions)
    (st st' : Pool) (idx : nat) :
  opt_easing options = Some spring ->
  firstZeroIndex hk st = Some idx ->
  trigger hk options st = Normal st' ->
  animationsRef st' !! idx = Some MotionControls
  /\ active_at hk st' idx = Some 1
  /\ motion st'
     = motion st ++
       [mkSpringStart idx (default 1 (opt_targetValue options))
          (default (mkSpringConfig 100 10) (opt_springConfig options))]
  /\ (forall now s,
        animationsRef s !! idx = Some MotionControls ->
        slot_view hk (useFrame hk now s) idx = slot_view hk s idx)
  /\ (forall s e,
        spring_driven hk s idx ->
        (forall v, e <> SpringUpdate idx v) ->
        e <> SpringComplete idx ->
        slot_view hk (step hk s e) idx = slot_view hk s idx)
  /\ (forall events,
        Forall (fun e => e <> SpringComplete idx) events ->
        slot_view hk (run hk st' events) idx
        = slot_view hk (run hk st' (without_frames events)) idx
        /\ animationsRef (run hk st' events) !! idx = Some MotionControls)
  /\ (forall s v,
        slot_view hk (onUpdate hk idx v s) idx
        = (active_at hk s idx, (fun _ => v) <$> value_at hk s idx,
           animationsRef s !! idx))
  /\ (forall s,
        slot_view hk (onComplete hk idx s) idx
        = ((fun _ => 0) <$> active_at hk s idx,
           (fun _ => 0) <$> value_at hk s idx, None)).
Proof.
  intros Heasing Hfree Hcall.
  destruct (trigger_spring_driven hk options st st' idx Heasing Hfree Hcall)
    as [Hspring Hact].
  split; [|split; [|split; [|split; [|split; [|split; [|split]]]]]].
  - destruct Hspring as (a & v & Hview & _).
    unfold slot_view in Hview. by injection Hview.
  - exact Hact.
  - destruct (trigger_allocates hk options st idx Hfree)
      as (st2 & Heq & _ & _ & _ & Hmotion).
    rewrite Heq in Hcall. injection Hcall as <-.
    by rewrite Hmotion, Heasing.
  - intros now s. apply slot_view_frame_spring.
  - intros s e. apply slot_view_step_spring.
  - intros events Hall. split.
    + by apply spring_slot_frames_irrelevant.
    + destruct (spring_driven_run hk idx events st' Hspring Hall)
        as (a & v & Hview & _).
      unfold slot_view in Hview. by injection Hview.
  - intros s v. apply slot_view_onUpdate.
  - intros s. apply slot_view_release.
Qed.

Lemma spring_slot_not_advanced_witness :
  slot_view Sample.hook
    (run Sample.hook (run Sample.hook Sample.pool [Trigger (Sample.options spring)])
       [Frame 1; SpringUpdate 0 (1 # 3); Frame 2]) 0
  = slot_view Sample.hook
      (run Sample.hook (run Sample.hook Sample.pool [Trigger (Sample.options spring)])
         (without_frames [Frame 1; SpringUpdate 0 (1 # 3); Frame 2])) 0.
Proof.
  destruct (spring_slot_not_advanced Sample.hook (Sample.options spring) Sample.pool
              (run Sample.hook Sample.pool [Trigger (Sample.options spring)]) 0
              eq_refl eq_refl eq_refl)
    as (_ & _ & _ & _ & _ & Hruns & _).
  apply Hruns. repeat constructor; discriminate.
Defined.

Section BinaryFlags.
Variable hk : Hook.

Lemma flags_binary_setValue (st : Pool) (i id : nat) (v : Q) :
  flags_binary st -> flags_binary (with_store (alter (setValue i v) id) st).
Proof.
  unfold flags_binary; simpl. intros Hinv.
  apply Forall_alter; [done|]. by intros b _ Hb.
Qed.

Lemma flags_binary_setActive (st : Pool) (i id : nat) (v : Q) :
  binary v ->
  flags_binary st -> flags_binary (with_store (alter (setActive i v) id) st).
Proof.
  unfold flags_binary; simpl. intros Hv Hinv.
  apply Forall_alter; [done|]. intros b _ Hb. simpl. by apply Forall_insert.
Qed.

Lemma flags_binary_only_value (j : nat) (s s' : Store) :
  Forall2 (only_value j) s s' ->
  Forall (fun b => Forall binary (array (activeBuffer b))) s ->
  Forall (fun b => Forall binary (array (activeBuffer b))) s'.
Proof.
  induction 1 as [|b b' s s' [Hact _] _ IH]; intros Hinv; [done|].
  apply Forall_cons in Hinv as [Hb Hs].
  constructor; [by rewrite Hact | by apply IH].
Qed.

Lemma flags_binary_release (i : nat) (st : Pool) :
  flags_binary st -> flags_binary (release hk i st).
Proof.
  unfold flags_binary, release; simpl. intros Hinv.
  apply Forall_alter; [done|]. intros b _ Hb. simpl.
  apply Forall_insert; [done | by left].
Qed.

Lemma flags_binary_write_eased (now : Q) (i : nat) (anim : AnimationState) (st : Pool) :
  flags_binary st -> flags_binary (write_eased hk now i anim st).
Proof.
  unfold flags_binary, write_eased; simpl. intros Hinv.
  apply Forall_alter; [done|]. by intros b _ Hb.
Qed.

Lemma flags_binary_advance_slot (now : Q) (st : Pool) (i : nat) :
  flags_binary st -> flags_binary (advance_slot hk now st i).
Proof.
  intros Hinv. unfold advance_slot.
  destruct (store st !! buffer hk) as [buf|]; [|done].
  destruct (array (activeBuffer buf) !! i) as [a|]; [|done].
  destruct (Qeq_bool a 1); [|done].
  destruct (animationsRef st !! i) as [[anim|]|]; [|done|done].
  destruct (negb (EasingType_eqb (easing anim) spring)); [|done].
  destruct (Qle_bool 1 (progress_of (started anim now) now)).
  - by apply flags_binary_release, flags_binary_write_eased.
  - by apply flags_binary_write_eased.
Qed.

Lemma flags_binary_useFrame (now : Q) (st : Pool) :
  flags_binary st -> flags_binary (useFrame hk now st).
Proof.
  unfold useFrame. destruct (store st !! buffer hk) as [buf|]; [|done].
  generalize (seq 0 (length (array (activeBuffer buf)))). intros l.
  revert st. induction l as [|i l IH]; intros st Hinv; simpl; [done|].
  by apply IH, flags_binary_advance_slot.
Qed.

Lemma flags_binary_trigger (options : TriggerOptions) (st : Pool) :
  flags_binary st -> flags_binary (step hk st (Trigger options)).
Proof.
  intros Hinv. simpl.
  destruct (firstZeroIndex hk st) as [j|] eqn:Hfree.
  - destruct (trigger_allocates hk options st j Hfree) as (st' & Hcall & Hrel & _).
    rewrite Hcall. unfold flags_binary.
    apply (flags_binary_only_value j _ _ Hrel).
    apply (flags_binary_setActive st j (buffer hk) 1); [by right | done].
  - destruct (trigger_rejected hk options st Hfree) as [-> | ->]; done.
Qed.

Lemma flags_binary_step (st : Pool) (e : Event) :
  flags_binary st -> flags_binary (step hk st e).
Proof.
  intros Hinv. destruct e as [options|now|k v|k].
  - by apply flags_binary_trigger.
  - by apply flags_binary_useFrame.
  - by apply flags_binary_setValue.
  - by apply flags_binary_release.
Qed.

Lemma flags_binary_run (events : list Event) (st : Pool) :
  flags_binary st -> flags_binary (run hk st events).
Proof.
  revert st. induction events as [|e events IH]; intros st Hinv; simpl; [done|].
  by apply IH, flags_binary_step.
Qed.

Lemma flags_binary_active_at (st : Pool) (i : nat) (a : Q) :
  flags_binary st -> active_at hk st i = Some a -> a = 0 \/ a = 1.
Proof.
  unfold flags_binary, active_at. intros Hinv Ha.
  destruct (store st !! buffer hk) as [buf|] eqn:Hbuf; [|discriminate].
  simpl in Ha.
  apply (Forall_lookup_1 _ _ _ _ Hinv) in Hbuf.
  by apply (Forall_lookup_1 _ _ _ _ Hbuf) in Ha.
Qed.

End BinaryFlags.

Section FreshPool.

Lemma useStorageBuffers_from_zeroed (keys : list string) (size : nat) :
  forall (s : Store) (buffers : gmap string nat),
    Forall (fun b => Forall (fun v => v = 0) (array (activeBuffer b))) s ->
    Forall (fun b => Forall (fun v => v = 0) (array (activeBuffer b)))
      (useStorageBuffers_from keys size s buffers).1.
Proof.
  induction keys as [|key keys IH]; intros s buffers Hs; simpl; [done|].
  apply IH. apply Forall_app. split; [done|].
  constructor; [|done]. simpl. by apply Forall_replicate.
Qed.

Lemma flags_binary_initial (keys : list string) (size : nat) :
  flags_binary (initial (useStorageBuffers keys size).1).
Proof.
  unfold flags_binary; simpl.
  eapply Forall_impl; [by apply useStorageBuffers_from_zeroed|].
  intros b Hb. eapply Forall_impl; [exact Hb|]. intros v ->. by left.
Qed.

End FreshPool.


Section OtherBuffers.
Variable hk : Hook.

Lemma advance_slot_other_buffer (now : Q) (st : Pool) (i id : nat) :
  id <> buffer hk ->
  store (advance_slot hk now st i) !! id = store st !! id.
Proof.
  intros Hne. unfold advance_slot.
  destruct (store st !! buffer hk) as [buf|]; [|done].
  destruct (array (activeBuffer buf) !! i) as [a|]; [|done].
  destruct (Qeq_bool a 1); [|done].
  destruct (animationsRef st !! i) as [[anim|]|]; [|done|done].
  destruct (negb (EasingType_eqb (easing anim) spring)); [|done].
  destruct (Qle_bool 1 (progress_of (started anim now) now)); simpl;
    by rewrite ?list_lookup_alter_ne.
Qed.

Lemma useFrame_other_buffer (now : Q) (st : Pool) (id : nat) :
  id <> buffer hk ->
  store (useFrame hk now st) !! id = store st !! id.
Proof.
  intros Hne. unfold useFrame.
  destruct (store st !! buffer hk) as [buf|]; [|done].
  generalize (seq 0 (length (array (activeBuffer buf)))). intros l.
  revert st. induction l as [|i l IH]; intros st; simpl; [done|].
  rewrite IH. by apply advance_slot_other_buffer.
Qed.

Lemma release_other_buffer (i id : nat) (st : Pool) :
  id <> buffer hk ->
  store (release hk i st) !! id = store st !! id.
Proof. intros Hne. simpl. by apply list_lookup_alter_ne. Qed.

(** No event but a call that takes slot [i] changes the entry [i] of a
    data buffer other than the animated one. *)
Lemma data_at_step (st : Pool) (e : Event) (id i : nat) :
  id <> buffer hk ->
  allocates hk st e <> Some i ->
  data_at (step hk st e) id i = data_at st id i.
Proof.
  intros Hne Halloc. destruct e as [options|now|k v|k]; simpl in *.
  - destruct (firstZeroIndex hk st) as [j|] eqn:Hfree.
    + destruct (trigger_allocates hk options st j Hfree) as (st' & Hcall & _).
      rewrite Hcall. apply (trigger_data_at hk options st st' j Hfree Hcall).
      congruence.
    + destruct (trigger_rejected hk options st Hfree) as [-> | ->]; done.
  - unfold data_at. by rewrite useFrame_other_buffer.
  - unfold data_at, onUpdate; simpl. by rewrite list_lookup_alter_ne.
  - unfold data_at. by rewrite release_other_buffer.
Qed.

Lemma data_at_run (id i : nat) (events : list Event) :
  id <> buffer hk ->
  forall st,
    not_reused hk i st events ->
    data_at (run hk st events) id i = data_at st id i.
Proof.
  intros Hne. induction events as [|e events IH]; intros st Hkeep; [done|].
  destruct Hkeep as [Halloc Hkeep]. simpl.
  rewrite IH by done. by apply data_at_step.
Qed.

(** The payload entry that is the last to land in buffer [id] is what the
    buffer holds at the slot taken. *)
Lemma store_data_written (dbs : gmap string nat) (idx id : nat)
    (data1 data2 : list (string * Q)) (key : string) (v : Q)
    (s : Store) (b : ShaderBuffer) :
  dbs !! key = Some id ->
  (forall e, e ∈ data2 -> dbs !! e.1 <> Some id) ->
  s !! id = Some b ->
  (idx < length (array (valuesBuffer b)))%nat ->
  exists b',
    foldl (store_data dbs idx) s (data1 ++ (key, v) :: data2) !! id = Some b'
    /\ array (valuesBuffer b') !! idx = Some v.
Proof.
  intros Hkey Hlater Hb Hlen.
  rewrite foldl_app. simpl. rewrite store_data_other by done.
  pose proof (only_value_store_data dbs idx data1 s s (only_value_store_refl idx s))
    as Hrel.
  apply Forall2_lookup with (i := id) in Hrel. rewrite Hb in Hrel.
  inversion Hrel as [b1 b2 (Hact & Hsame & Hval) Heq1 Heq2|]; subst.
  unfold store_data at 1. simpl. rewrite Hkey.
  rewrite list_lookup_alter_eq, <- Heq2. simpl.
  eexists; split; [reflexivity|]. simpl.
  apply list_lookup_insert_eq. lia.
Qed.

End OtherBuffers.

Section Payload.
Variable hk : Hook.

Lemma trigger_store (dbs : gmap string nat) (options : TriggerOptions)
    (st st' : Pool) (idx : nat) :
  dataBuffers hk = Some dbs ->
  firstZeroIndex hk st = Some idx ->
  trigger hk options st = Normal st' ->
  store st'
  = foldl (store_data dbs idx)
      (alter (setActive idx 1) (buffer hk) (store st))
      (default [] (opt_data options)).
Proof.
  unfold firstZeroIndex, trigger. intros Hdbs Hfree.
  destruct (store st !! buffer hk) as [buf|]; [|discriminate].
  simpl in Hfree. rewrite Hfree, Hdbs. intros Hcall.
  injection Hcall as <-.
  by destruct (EasingType_eqb (default linear (opt_easing options)) spring).
Qed.

End Payload.



(** ** The grid trail texture *)

Section DecayLoop.
Import GridTrail.
Variable decay : Q.

(** One stride of the loop: the three channels of its cell are scaled. *)
Lemma decay_at_lookup (data : list Q) (m c k : nat) :
  (k < 4)%nat ->
  decay_at decay data (4 * m) !! (4 * c + k)%nat
  = if decide (c = m /\ (k < 3)%nat)
    then (fun v => v * decay) <$> data !! (4 * c + k)%nat
    else data !! (4 * c + k)%nat.
Proof.
  intros Hk. unfold decay_at. rewrite !list_lookup_alter.
  repeat case_decide; try done; try (exfalso; lia).
  all: try (replace (4 * m + 2)%nat with (4 * c + k)%nat by lia; done).
  all: try (replace (4 * m + 1)%nat with (4 * c + k)%nat by lia; done).
  all: try (replace (4 * m)%nat with (4 * c + k)%nat by lia; done).
Qed.

Lemma decay_prefix_lookup (data : list Q) (n c k : nat) :
  (k < 4)%nat ->
  foldl (decay_at decay) data ((fun i => 4 * i)%nat <$> seq 0 n) !! (4 * c + k)%nat
  = if decide ((c < n)%nat /\ (k < 3)%nat)
    then (fun v => v * decay) <$> data !! (4 * c + k)%nat
    else data !! (4 * c + k)%nat.
Proof.
  intros Hk. induction n as [|n IH].
  - by rewrite decide_False by lia.
  - rewrite seq_S, fmap_snoc, foldl_snoc, Nat.add_0_l.
    rewrite decay_at_lookup by done. rewrite IH.
    repeat case_decide; try done; exfalso; lia.
Qed.

(** The whole loop, cell by cell: red, green and blue scaled, alpha kept. *)
Lemma decay_loop_lookup (data : list Q) (c k : nat) :
  (k < 4)%nat ->
  decay_loop decay data !! (4 * c + k)%nat
  = if decide (k < 3)%nat
    then (fun v => v * decay) <$> data !! (4 * c + k)%nat
    else data !! (4 * c + k)%nat.
Proof.
  intros Hk. unfold decay_loop, strides.
  rewrite decay_prefix_lookup by done.
  destruct (decide (c < (length data + 3) / 4)%nat) as [Hc|Hc].
  - repeat case_decide; try done; exfalso; lia.
  - assert (Hout : data !! (4 * c + k)%nat = None).
    { apply lookup_ge_None_2.
      pose proof (Nat.div_mod_eq (length data + 3) 4) as Hdiv.
      pose proof (Nat.mod_upper_bound (length data + 3) 4) as Hmod.
      lia. }
    rewrite Hout. by repeat case_decide.
Qed.

Lemma decay_at_length (data : list Q) (i : nat) :
  length (decay_at decay data i) = length data.
Proof. unfold decay_at. by rewrite !length_alter. Qed.

Lemma decay_loop_length (data : list Q) :
  length (decay_loop decay data) = length data.
Proof.
  unfold decay_loop. generalize (strides (length data)). intros l.
  revert data. induction l as [|i l IH]; intros data; simpl; [done|].
  by rewrite IH, decay_at_length.
Qed.

(** A channel scaled by a factor in [0, 1) shrinks, and zero stays zero. *)
Lemma decay_shrinks (v : Q) :
  0 <= decay -> decay < 1 ->
  (~ v == 0 -> Qabs (v * decay) < Qabs v) /\ (v == 0 -> v * decay == 0).
Proof.
  intros Hlo Hhi. split.
  - intros Hv. rewrite Qabs_Qmult, (Qabs_pos decay) by done.
    assert (Hpos : 0 < Qabs v).
    { apply Qabs_case; intros Hs; [|]; apply Qnot_le_lt; intros Hle; apply Hv; lra. }
    nra.
  - intros Hv. rewrite Hv. ring.
Qed.

End DecayLoop.

Section GridIndex.

(** Two cells of one grid with the same texel index are the same cell. *)
Lemma cell_index_inj (size x y x0 y0 : nat) :
  (x < size)%nat -> (x0 < size)%nat ->
  (x + size * y = x0 + size * y0)%nat ->
  x = x0 /\ y = y0.
Proof.
  intros Hx Hx0 Heq.
  assert (Hy : y = y0).
  { destruct (lt_eq_lt_dec y y0) as [[Hlt|Hsame]|Hgt]; [|done|]; exfalso; nia. }
  subst. split; [nia | done].
Qed.

Lemma foldl_lookup_frame {A B : Type} (f : list A -> B -> list A)
    (j : nat) (l : list B) :
  forall d : list A,
    (forall d' a, a ∈ l -> f d' a !! j = d' !! j) ->
    foldl f d l !! j = d !! j.
Proof.
  induction l as [|a l IH]; intros d Hstep; simpl; [done|].
  rewrite IH by (intros d' a' Ha'; apply Hstep; set_solver).
  apply Hstep. set_solver.
Qed.

Lemma clamp_range (value lo hi : Q) :
  lo <= hi ->
  lo <= GridTrail.clamp value lo hi /\ GridTrail.clamp value lo hi <= hi.
Proof.
  intros Hle. unfold GridTrail.clamp. split.
  - apply Q.le_max_l.
  - apply Q.max_lub; [done | apply Q.le_min_r].
Qed.

(** The stand-in square root is positive on positive numbers. *)
Lemma approx_sqrt_pos (d : Q) : 0 < d -> 0 < approx_sqrt d.
Proof.
  destruct d as [n den]. unfold Qlt, approx_sqrt. simpl. intros Hn.
  assert (Hbig : (1000 <= Z.sqrt (n * Z.pos den * 1000000))%Z).
  { apply Z.sqrt_le_square; nia. }
  lia.
Qed.

End GridIndex.

Section TrailFrame.
Import GridTrail.
Context {M : MathLib}.


(** C5.  On a frame with a texture and a pointer sample (x1, y1), the
    previous position being (x0, y0): the velocity stored before the grid
    is touched is (x1 - x0, y1 - y0) and the position becomes (x1, y1);
    fading and depositing read that velocity and leave it as it is; at the
    end of the frame each component is multiplied by the decay factor and
    replaced by 0 when its absolute value is below 1/1000. *)
Theorem pointer_velocity (p : UseGridTrailTextureProps) (st : Trail)
    (dt : DataTexture) (rawPointer : Vec2.t) :
  dataTextureRef st = Some dt ->
  rawPointerRef st = Some rawPointer ->
  let x0 := Vec2.x (pointerRef st) in
  let y0 := Vec2.y (pointerRef st) in
  let x1 := Vec2.x rawPointer in
  let y1 := Vec2.y rawPointer in
  let tracked := track_pointer rawPointer st in
  pointerVelocityRef tracked = Vec2.mk (x1 - x0) (y1 - y0)
  /\ pointerRef tracked = Vec2.mk x1 y1
  /\ dataTextureRef tracked = Some dt
  /\ pointerVelocityRef (paint p dt tracked) = Vec2.mk (x1 - x0) (y1 - y0)
  /\ useFrame p st = settle_velocity p (paint p dt tracked)
  /\ pointerVelocityRef (useFrame p st)
     = Vec2.mk (settle (decay p) (x1 - x0)) (settle (decay p) (y1 - y0))
  /\ (forall v, Qabs (v * decay p) < 1 # 1000 -> settle (decay p) v = 0)
  /\ (forall v, 1 # 1000 <= Qabs (v * decay p) -> settle (decay p) v = v * decay p).
Proof.
  intros Hdt Hraw x0 y0 x1 y1 tracked.
  repeat split; try done.
  - unfold useFrame. by rewrite Hdt, Hraw.
  - unfold useFrame. by rewrite Hdt, Hraw.
  - intros v Hv. unfold settle.
    by rewrite (proj2 (Qltb_lt (Qabs (v * decay p)) EPS) Hv).
  - intros v Hv. unfold settle.
    by rewrite (proj2 (Qltb_ge (Qabs (v * decay p)) EPS) Hv).
Qed.


End TrailFrame.


Lemma pointer_velocity_witness :
  GridTrail.pointerVelocityRef (GridTrail.track_pointer (Vec2.mk 1 1) Sample.moving)
  = Vec2.mk (1 - (1 # 2)) (1 - 1)
  /\ GridTrail.pointerVelocityRef (GridTrail.useFrame Sample.props Sample.moving)
     = Vec2.mk (GridTrail.settle (1 # 2) (1 - (1 # 2)))
               (GridTrail.settle (1 # 2) (1 - 1)).
Proof.
  destruct (pointer_velocity Sample.props Sample.moving Sample.ones (Vec2.mk 1 1)
              eq_refl eq_refl)
    as (Hvel & _ & _ & _ & _ & Hend & _).
  split; [exact Hvel | exact Hend].
Defined.


Section TrailDeposit.
Import GridTrail.
Context {M : MathLib}.
Variables (p : UseGridTrailTextureProps) (velocity : Vec2.t).
Variables (mouseRadius cellX cellY : Q).

(** Outside the guard the loop body is the identity. *)
Lemma deposit_cell_guarded (x y : nat) (data : list Q) :
  ~ (0 < cell_dist cellX cellY x y
     /\ cell_dist cellX cellY x y < mouseRadius ^ 2) ->
  deposit_cell p velocity mouseRadius cellX cellY y data x = data.
Proof.
  intros Hout. unfold deposit_cell. cbv zeta.
  destruct (Qltb (cell_dist cellX cellY x y) (mouseRadius ^ 2)) eqn:Hlt;
    [|done].
  destruct (Qltb 0 (cell_dist cellX cellY x y)) eqn:Hpos; [|done].
  exfalso. apply Hout. split; by apply Qltb_lt.
Qed.

(** The loop body for one cell leaves the texels of every other cell. *)
Lemma deposit_cell_other (x y x0 y0 k : nat) (data : list Q) :
  (x < grid p)%nat -> (x0 < grid p)%nat -> (k < 4)%nat ->
  (x, y) <> (x0, y0) ->
  deposit_cell p velocity mouseRadius cellX cellY y data x
    !! (4 * (x0 + grid p * y0) + k)%nat
  = data !! (4 * (x0 + grid p * y0) + k)%nat.
Proof.
  intros Hx Hx0 Hk Hne.
  assert (Hidx : (x + grid p * y)%nat <> (x0 + grid p * y0)%nat).
  { intros Heq. apply Hne.
    destruct (cell_index_inj (grid p) x y x0 y0 Hx Hx0 Heq) as [-> ->]. done. }
  unfold deposit_cell. cbv zeta.
  destruct (Qltb (cell_dist cellX cellY x y) (mouseRadius ^ 2)
            && Qltb 0 (cell_dist cellX cellY x y)); [|done].
  rewrite !list_lookup_alter_ne by lia. done.
Qed.

(** A cell outside the guard comes out of the two loops as it went in. *)
Lemma deposit_loop_guarded (x0 y0 k : nat) (data : list Q) :
  (x0 < grid p)%nat -> (k < 4)%nat ->
  ~ (0 < cell_dist cellX cellY x0 y0
     /\ cell_dist cellX cellY x0 y0 < mouseRadius ^ 2) ->
  deposit_loop p velocity mouseRadius cellX cellY data
    !! (4 * (x0 + grid p * y0) + k)%nat
  = data !! (4 * (x0 + grid p * y0) + k)%nat.
Proof.
  intros Hx0 Hk Hout. unfold deposit_loop. cbv zeta.
  apply foldl_lookup_frame. intros d x Hx.
  apply elem_of_seq in Hx.
  apply foldl_lookup_frame. intros d' y Hy.
  destruct (decide ((x, y) = (x0, y0))) as [Heq|Hne].
  - injection Heq as -> ->. by rewrite deposit_cell_guarded.
  - apply deposit_cell_other; [lia | done | done | done].
Qed.

End TrailDeposit.

Section TrailDepositFrame.
Import GridTrail.
Context {M : MathLib}.


End TrailDepositFrame.


(** * Further properties of the storage pool *)

Import Lifecycle.

Section FreshBuffers.
Variable size : nat.

(** What [useStorageBuffers_from] keeps true of the store and the map. *)
Lemma useStorageBuffers_from_shape (keys : list string) :
  forall (s : Store) (m : gmap string nat),
    (forall id b, s !! id = Some b -> b = newShaderBuffer size) ->
    (forall k id, m !! k = Some id -> (id < length s)%nat) ->
    (forall k1 k2 id, m !! k1 = Some id -> m !! k2 = Some id -> k1 = k2) ->
    let r := useStorageBuffers_from keys size s m in
    (forall id b, r.1 !! id = Some b -> b = newShaderBuffer size)
    /\ (forall k id, r.2 !! k = Some id -> (id < length r.1)%nat)
    /\ (forall k1 k2 id, r.2 !! k1 = Some id -> r.2 !! k2 = Some id -> k1 = k2)
    /\ (forall k, is_Some (r.2 !! k) <-> k ∈ keys \/ is_Some (m !! k))
    /\ length r.1 = (length s + length keys)%nat.
Proof.
  induction keys as [|key keys IH]; intros s m Hnew Hbound Hinj; simpl.
  - split; [done|]. split; [done|]. split; [done|]. split; [|lia].
    intros k. split; [by right|].
    intros [Hin|Hm]; [by apply elem_of_nil in Hin | done].
  - destruct (IH (s ++ [newShaderBuffer size]) (<[key := length s]> m))
      as (Hnew' & Hbound' & Hinj' & Hdom' & Hlen').
    + intros id b Hb. apply lookup_app_Some in Hb as [Hb|[_ Hb]].
      * by apply (Hnew id).
      * apply list_lookup_singleton_Some in Hb as [_ <-]. done.
    + intros k id Hk. rewrite length_app. simpl.
      apply lookup_insert_Some in Hk as [[_ <-]|[_ Hk]]; [lia|].
      apply Hbound in Hk. lia.
    + intros k1 k2 id H1 H2.
      apply lookup_insert_Some in H1 as [[<- <-]|[Hne1 H1]];
        apply lookup_insert_Some in H2 as [[<- Heq]|[Hne2 H2]]; try done.
      * apply Hbound in H2. lia.
      * apply Hbound in H1. lia.
      * by apply (Hinj k1 k2 id).
    + split; [done|]. split; [done|]. split; [done|]. split.
      * intros k. split.
        -- intros Hk. apply Hdom' in Hk as [Hin|Hk];
             [left; apply elem_of_cons; by right|].
           destruct (decide (k = key)) as [->|Hne];
             [left; apply elem_of_cons; by left|].
           right. by rewrite lookup_insert_ne in Hk.
        -- intros [Hin|Hk]; apply Hdom'.
           ++ apply elem_of_cons in Hin as [->|Hin]; [|by left].
              right. by rewrite lookup_insert_eq.
           ++ destruct (decide (k = key)) as [->|Hne].
              ** right. by rewrite lookup_insert_eq.
              ** right. by rewrite lookup_insert_ne.
      * rewrite Hlen', length_app. simpl. lia.
Qed.

End FreshBuffers.

(** X1.  [useStorageBuffers(keys, size)] names a buffer for exactly the
    keys given; every buffer it names is in the store, with both arrays
    [size] zeros and no upload pending; two different keys never name the
    same buffer; and the store holds one buffer per entry of [keys]. *)
Theorem useStorageBuffers_fresh (keys : list string) (size : nat) :
  let store0 := (useStorageBuffers keys size).1 in
  let buffers := (useStorageBuffers keys size).2 in
  (forall k, is_Some (buffers !! k) <-> k ∈ keys)
  /\ (forall k id, buffers !! k = Some id ->
        store0 !! id
        = Some (mkShaderBuffer (mkAttribute (replicate size 0) false)
                               (mkAttribute (replicate size 0) false)))
  /\ (forall k1 k2 id, buffers !! k1 = Some id -> buffers !! k2 = Some id -> k1 = k2)
  /\ length store0 = length keys.
Proof.
  intros store0 buffers.
  destruct (useStorageBuffers_from_shape size keys [] ∅)
    as (Hnew & Hbound & Hinj & Hdom & Hlen); try done.
  split; [|split; [|split]].
  - intros k. unfold buffers, useStorageBuffers. rewrite Hdom.
    split; [|by left]. intros [Hin|Hempty]; [done|].
    rewrite lookup_empty in Hempty. by destruct Hempty.
  - intros k id Hk. apply Hbound in Hk.
    apply lookup_lt_is_Some in Hk as [b Hb].
    unfold store0, useStorageBuffers. rewrite Hb. f_equal. by apply (Hnew id).
  - exact Hinj.
  - exact Hlen.
Qed.

Section LowestFree.
Variable hk : Hook.

Lemma findIndex_least {A : Type} (p : A -> bool) (l : list A) (i : nat) (v : A) :
  l !! i = Some v ->
  p v = true ->
  (forall j w, (j < i)%nat -> l !! j = Some w -> p w = false) ->
  findIndex p l = Some i.
Proof.
  revert i. induction l as [|u l IH]; intros i Hi Hv Hbefore; [done|].
  destruct i as [|i]; simpl in *.
  - injection Hi as ->. by rewrite Hv.
  - rewrite (Hbefore 0%nat u) by (done || lia).
    rewrite (IH i); [done | done | done |].
    intros j w Hj Hw. apply (Hbefore (S j) w); [lia | done].
Qed.

(** The slot a call takes is the lowest one whose flag is zero. *)
Lemma firstZeroIndex_least (st : Pool) (idx : nat) (a : Q) :
  active_at hk st idx = Some a ->
  a == 0 ->
  (forall j b, (j < idx)%nat -> active_at hk st j = Some b -> ~ b == 0) ->
  firstZeroIndex hk st = Some idx.
Proof.
  unfold active_at, firstZeroIndex. intros Ha Hz Hbefore.
  destruct (store st !! buffer hk) as [buf|]; [|done]. simpl in *.
  apply (findIndex_least _ _ idx a); [done | by apply Qeq_eq_bool |].
  intros j w Hj Hw.
  destruct (Qeq_bool w 0) eqn:E; [|done].
  apply Qeq_bool_eq in E. by destruct (Hbefore j w Hj Hw).
Qed.

Lemma firstZeroIndex_full (st : Pool) :
  (forall i a, active_at hk st i = Some a -> ~ a == 0) ->
  firstZeroIndex hk st = None.
Proof.
  unfold active_at, firstZeroIndex. intros Hfull.
  destruct (store st !! buffer hk) as [buf|]; [|done]. simpl in *.
  apply findIndex_None, Forall_lookup. intros i a Ha.
  destruct (Qeq_bool a 0) eqn:E; [|done].
  apply Qeq_bool_eq in E. by destruct (Hfull i a Ha).
Qed.

Lemma trigger_record_of (options : TriggerOptions) (st st' : Pool) (idx : nat) :
  firstZeroIndex hk st = Some idx ->
  trigger hk options st = Normal st' ->
  animationsRef st' = <[idx := record_of options]> (animationsRef st).
Proof.
  intros Hfree Hcall. exact (trigger_record hk options st st' idx Hfree Hcall).
Qed.

Lemma trigger_console (options : TriggerOptions) (st st' : Pool) (idx : nat) :
  firstZeroIndex hk st = Some idx ->
  trigger hk options st = Normal st' ->
  console st' = console st.
Proof.
  intros Hfree Hcall.
  destruct (trigger_allocates hk options st idx Hfree) as (st2 & Heq & _ & _ & Hc & _).
  rewrite Heq in Hcall. by injection Hcall as <-.
Qed.

Lemma trigger_slot_taken (options : TriggerOptions) (st st' : Pool) (idx : nat) :
  firstZeroIndex hk st = Some idx ->
  trigger hk options st = Normal st' ->
  active_at hk st' idx = Some 1.
Proof.
  intros Hfree Hcall.
  rewrite (trigger_active_at hk options st st' idx Hfree Hcall).
  apply firstZeroIndex_free in Hfree as (a & Ha & _).
  unfold active_at in Ha.
  destruct (store st !! buffer hk) as [buf|]; [|discriminate]. simpl in *.
  apply list_lookup_insert_eq. by eapply lookup_lt_Some.
Qed.

End LowestFree.



Section FillingThePool.
Variable hk : Hook.

Lemma trigger_rejected_warn (options : TriggerOptions) (st : Pool) :
  is_Some (store st !! buffer hk) ->
  firstZeroIndex hk st = None ->
  trigger hk options st = Normal (warn buffer_full st).
Proof.
  unfold firstZeroIndex, trigger. intros [buf Hbuf] Hnone.
  rewrite Hbuf in *. simpl in Hnone. by rewrite Hnone.
Qed.

Lemma trigger_store_length (options : TriggerOptions) (st st' : Pool) :
  trigger hk options st = Normal st' ->
  length (store st') = length (store st).
Proof.
  intros Hcall. destruct (firstZeroIndex hk st) as [idx|] eqn:Hfree.
  - pose proof (trigger_store_shape hk options st st' idx Hfree Hcall) as Hshape.
    apply Forall2_length in Hshape. by rewrite length_alter in Hshape.
  - destruct (trigger_rejected hk options st Hfree) as [Heq|Heq];
      rewrite Heq in Hcall; [|discriminate].
    by injection Hcall as <-.
Qed.

(** The pool after a run of calls on zeroed flags: the first calls own the
    slots in order, the others were turned away. *)
Lemma triggers_fill (st : Pool) (buf : ShaderBuffer) (slots : nat)
    (calls : list TriggerOptions) :
  store st !! buffer hk = Some buf ->
  array (activeBuffer buf) = replicate slots 0 ->
  let st' := run hk st (Trigger <$> calls) in
  let n := length calls in
  length (store st') = length (store st)
  /\ (forall i,
        active_at hk st' i
        = if decide (i < Nat.min n slots)%nat then Some 1
          else if decide (i < slots)%nat then Some 0 else None)
  /\ (forall i o, (i < slots)%nat -> calls !! i = Some o ->
        animationsRef st' !! i = Some (record_of o))
  /\ console st' = console st ++ replicate (n - slots) buffer_full.
Proof.
  intros Hbuf Hzero. induction calls as [|o calls IH] using rev_ind.
  - simpl. split; [done|]. split; [|split].
    + intros i. unfold active_at. rewrite Hbuf. simpl. rewrite Hzero.
      destruct (decide (i < slots)%nat) as [Hi|Hi].
      * rewrite lookup_replicate_2 by done. by repeat case_decide; try lia.
      * rewrite lookup_ge_None_2 by (rewrite length_replicate; lia).
        by repeat case_decide; try lia.
    + intros i o _ Hi. done.
    + by rewrite app_nil_r.
  - destruct IH as (Hlen & Hflags & Hrecs & Hlog).
    unfold run in *. rewrite fmap_app, foldl_app. simpl.
    set (stn := foldl (step hk) st (Trigger <$> calls)) in *.
    rewrite length_app. simpl.
    assert (Hpresent : is_Some (store stn !! buffer hk)).
    { apply lookup_lt_is_Some. rewrite Hlen. by eapply lookup_lt_Some. }
    destruct (decide (length calls < slots)%nat) as [Hroom|Hnoroom].
    + assert (Hfree : firstZeroIndex hk stn = Some (length calls)).
      { apply (firstZeroIndex_least hk stn (length calls) 0); [|done|].
        - rewrite Hflags. rewrite decide_False by lia. by rewrite decide_True.
        - intros j b Hj Hb. rewrite Hflags in Hb.
          rewrite decide_True in Hb by lia. injection Hb as <-. done. }
      destruct (trigger_allocates hk o stn (length calls) Hfree)
        as (st' & Hcall & _).
      rewrite Hcall.
      split; [by rewrite (trigger_store_length o stn st' Hcall)|].
      split; [|split].
      * intros i. destruct (decide (i = length calls)) as [->|Hne].
        -- rewrite (trigger_slot_taken hk o stn st' _ Hfree Hcall).
           by rewrite decide_True by lia.
        -- pose proof (trigger_slot_view_other hk o stn st' _ Hfree Hcall i Hne)
             as Hview.
           unfold slot_view in Hview. injection Hview as -> _ _.
           rewrite Hflags. repeat case_decide; try done; lia.
      * intros i o' Hi Ho'.
        rewrite (trigger_record_of hk o stn st' _ Hfree Hcall).
        destruct (decide (i = length calls)) as [->|Hne].
        -- rewrite list_lookup_middle in Ho' by done. injection Ho' as <-.
           by rewrite lookup_insert_eq.
        -- rewrite lookup_insert_ne by done. apply Hrecs; [done|].
           apply lookup_lt_Some in Ho' as Hlt. rewrite length_app in Hlt.
           simpl in Hlt. rewrite lookup_app_l in Ho' by lia. done.
      * rewrite (trigger_console hk o stn st' _ Hfree Hcall), Hlog.
        by replace (length calls + 1 - slots)%nat with (length calls - slots)%nat
          by lia.
    + assert (Hfull : firstZeroIndex hk stn = None).
      { apply firstZeroIndex_full. intros i a Ha. rewrite Hflags in Ha.
        repeat case_decide; try done; try lia. by injection Ha as <-. }
      rewrite (trigger_rejected_warn o stn Hpresent Hfull).
      split; [done|]. split; [|split].
      * intros i. change (active_at hk (warn buffer_full stn) i)
          with (active_at hk stn i).
        rewrite Hflags. repeat case_decide; try done; lia.
      * intros i o' Hi Ho'. simpl. apply Hrecs; [done|].
        rewrite lookup_app_l in Ho' by lia. done.
      * simpl. rewrite Hlog, <- app_assoc. f_equal.
        replace (length calls + 1 - slots)%nat
          with (S (length calls - slots)) by lia.
        by rewrite replicate_S_end.
Qed.

End FillingThePool.



Section RecordsAndFlags.
Variable hk : Hook.

Lemma active_at_release (k i : nat) (st : Pool) :
  active_at hk (release hk k st) i
  = if decide (i = k) then (fun _ => 0) <$> active_at hk st i
    else active_at hk st i.
Proof.
  destruct (decide (i = k)) as [->|Hne].
  - pose proof (slot_view_release hk k st) as Hview.
    unfold slot_view in Hview. by injection Hview.
  - pose proof (slot_view_release_ne hk i k st Hne) as Hview.
    unfold slot_view in Hview. by injection Hview.
Qed.

Lemma record_release (k i : nat) (st : Pool) :
  animationsRef (release hk k st) !! i
  = if decide (i = k) then None else animationsRef st !! i.
Proof.
  destruct (decide (i = k)) as [->|Hne]; simpl.
  - apply lookup_delete_eq.
  - by apply lookup_delete_ne.
Qed.

Lemma records_match_flags_step (st : Pool) (e : Event) :
  records_match_flags hk st -> records_match_flags hk (step hk st e).
Proof.
  intros Hinv. destruct e as [options|now|k v|k]; cbn [step].
  - destruct (firstZeroIndex hk st) as [idx|] eqn:Hfree.
    + destruct (trigger_allocates hk options st idx Hfree) as (st' & Hcall & _).
      rewrite Hcall. intros i. destruct (decide (i = idx)) as [->|Hne].
      * rewrite (trigger_slot_taken hk options st st' idx Hfree Hcall).
        rewrite (trigger_record_of hk options st st' idx Hfree Hcall).
        rewrite lookup_insert_eq. split; [done | by eexists].
      * pose proof (trigger_slot_view_other hk options st st' idx Hfree Hcall i Hne)
          as Hview.
        unfold slot_view in Hview. injection Hview as -> _ ->. apply Hinv.
    + destruct (trigger_rejected hk options st Hfree) as [-> | ->]; done.
  - intros i. pose proof (slot_view_useFrame hk now st i) as Hview.
    specialize (Hinv i). unfold slot_view, advance_view in Hview.
    destruct (active_at hk st i) as [a|];
      [|injection Hview as -> _ ->; exact Hinv].
    destruct (animationsRef st !! i) as [[anim|]|];
      [|injection Hview as -> _ ->; exact Hinv
       |injection Hview as -> _ ->; exact Hinv].
    destruct (Qeq_bool a 1 && negb (EasingType_eqb (easing anim) spring));
      [|injection Hview as -> _ ->; exact Hinv].
    destruct (Qle_bool 1 (progress_of (started anim now) now));
      injection Hview as -> _ ->.
    + split; [intros [x Hx]; discriminate | discriminate].
    + split; [intros _; apply Hinv; by eexists | by eexists].
  - intros i. specialize (Hinv i).
    assert (Hflag : active_at hk (onUpdate hk k v st) i = active_at hk st i).
    { unfold active_at, onUpdate; simpl.
      rewrite list_lookup_alter_eq. by destruct (store st !! buffer hk). }
    by rewrite Hflag.
  - unfold onComplete. intros i.
    rewrite active_at_release, record_release.
    destruct (decide (i = k)) as [->|Hne]; [|apply Hinv].
    split; [intros [x Hx]; discriminate|].
    destruct (active_at hk st k); discriminate.
Qed.

Lemma records_match_flags_run (events : list Event) :
  forall st, records_match_flags hk st -> records_match_flags hk (run hk st events).
Proof.
  induction events as [|e events IH]; intros st Hinv; simpl; [done|].
  by apply IH, records_match_flags_step.
Qed.

(** With no manual record the frame loop returns the state it was given. *)
Lemma advance_slot_idle (now : Q) (st : Pool) (i : nat) :
  (forall j anim, animationsRef st !! j <> Some (Manual anim)) ->
  advance_slot hk now st i = st.
Proof.
  intros Hnone. unfold advance_slot.
  destruct (store st !! buffer hk) as [buf|]; [|done].
  destruct (array (activeBuffer buf) !! i) as [a|]; [|done].
  destruct (Qeq_bool a 1); [|done].
  destruct (animationsRef st !! i) as [[anim|]|] eqn:Hrec; [|done|done].
  by destruct (Hnone i anim).
Qed.

End RecordsAndFlags.


(** X5.  A frame that finds no manual record in [animationsRef] (none at
    all, or only springs) returns the pool exactly as it was: no value is
    written and no buffer is marked for upload. *)
Theorem idle_frame_is_identity (hk : Hook) (now : Q) (st : Pool) :
  (forall j anim, animationsRef st !! j <> Some (Manual anim)) ->
  useFrame hk now st = st.
Proof.
  intros Hnone. unfold useFrame.
  destruct (store st !! buffer hk) as [buf|]; [|done].
  induction (seq 0 (length (array (activeBuffer buf)))) as [|i l IH]; simpl; [done|].
  by rewrite advance_slot_idle.
Qed.

Lemma idle_frame_is_identity_witness :
  useFrame Sample.hook 5
    (run Sample.hook Sample.pool [Trigger (Sample.options spring)])
  = run Sample.hook Sample.pool [Trigger (Sample.options spring)].
Proof.
  apply (idle_frame_is_identity Sample.hook 5
           (run Sample.hook Sample.pool [Trigger (Sample.options spring)])).
  intros j anim Hrec.
  change (animationsRef
            (run Sample.hook Sample.pool [Trigger (Sample.options spring)]))
    with (<[0%nat := MotionControls]> (∅ : gmap nat Animation)) in Hrec.
  apply lookup_insert_Some in Hrec as [[_ Hrec]|[_ Hrec]]; discriminate.
Defined.

Section EasingShape.

Lemma easeInOut_low (p : Q) :
  p < 1 # 2 -> easedProgress easeInOut p = 2 * p * p.
Proof.
  intros Hp. unfold easedProgress. by rewrite (proj2 (Qltb_lt p (1 # 2)) Hp).
Qed.

Lemma easeInOut_high (p : Q) :
  1 # 2 <= p -> easedProgress easeInOut p = -1 + (4 - 2 * p) * p.
Proof.
  intros Hp. unfold easedProgress. by rewrite (proj2 (Qltb_ge p (1 # 2)) Hp).
Qed.

Lemma easedProgress_range (e : EasingType) (p : Q) :
  0 <= p -> p <= 1 -> 0 <= easedProgress e p /\ easedProgress e p <= 1.
Proof.
  intros Hlo Hhi. destruct e; try (unfold easedProgress; split; nra).
  destruct (Qlt_le_dec p (1 # 2)) as [Hlow|Hhigh].
  - rewrite easeInOut_low by done. split; nra.
  - rewrite easeInOut_high by done. split; nra.
Qed.

Lemma easedProgress_start (e : EasingType) (p : Q) :
  p == 0 -> easedProgress e p == 0.
Proof.
  intros Hp. destruct e; try (unfold easedProgress; rewrite Hp; reflexivity).
  rewrite easeInOut_low by lra. rewrite Hp. reflexivity.
Qed.

Lemma easedProgress_monotone (e : EasingType) (p q : Q) :
  0 <= p -> p <= q -> q <= 1 -> easedProgress e p <= easedProgress e q.
Proof.
  intros Hlo Hpq Hhi. destruct e; try (unfold easedProgress; nra).
  destruct (Qlt_le_dec p (1 # 2)) as [Hp|Hp];
    destruct (Qlt_le_dec q (1 # 2)) as [Hq|Hq].
  - rewrite !easeInOut_low by done. nra.
  - rewrite easeInOut_low, easeInOut_high by done. nra.
  - lra.
  - rewrite !easeInOut_high by done. nra.
Qed.

End EasingShape.

(** X6.  On progress between 0 and 1 every easing curve of the frame loop
    stays between 0 and 1, starts at 0 and ends at 1. *)
Theorem eased_progress_stays_in_range (e : EasingType) (p : Q) :
  0 <= p -> p <= 1 ->
  0 <= easedProgress e p
  /\ easedProgress e p <= 1
  /\ easedProgress e 0 == 0
  /\ easedProgress e 1 == 1.
Proof.
  intros Hlo Hhi. destruct (easedProgress_range e p Hlo Hhi) as [H0 H1].
  split; [done|]. split; [done|]. split.
  - by apply easedProgress_start.
  - by apply easedProgress_end.
Qed.

Lemma eased_progress_stays_in_range_witness :
  0 <= easedProgress easeInOut (3 # 4) /\ easedProgress easeInOut (3 # 4) <= 1.
Proof.
  destruct (eased_progress_stays_in_range easeInOut (3 # 4)) as (H0 & H1 & _).
  - lra.
  - lra.
  - by split.
Defined.

(** X7.  Every easing curve of the frame loop is monotone on [0, 1]: later
    progress never gives a smaller eased progress, across the midpoint of
    easeInOut too. *)
Theorem eased_progress_is_monotone (e : EasingType) (p q : Q) :
  0 <= p -> p <= q -> q <= 1 -> easedProgress e p <= easedProgress e q.
Proof. apply easedProgress_monotone. Qed.

Lemma eased_progress_is_monotone_witness :
  easedProgress easeInOut (1 # 4) <= easedProgress easeInOut (3 # 4).
Proof.
  apply (eased_progress_is_monotone easeInOut (1 # 4) (3 # 4)); lra.
Defined.

(** X8.  The curves mirror each other: easeOut at p is 1 minus easeIn at
    1 - p, and easeInOut at 1 - p is 1 minus easeInOut at p, for every p, the
    two branches of easeInOut meeting at one half. *)
Theorem easing_curves_mirror (p : Q) :
  easedProgress easeOut p == 1 - easedProgress easeIn (1 - p)
  /\ easedProgress easeInOut (1 - p) == 1 - easedProgress easeInOut p.
Proof.
  split; [unfold easedProgress; ring|].
  destruct (Qlt_le_dec p (1 # 2)) as [Hp|Hp].
  - rewrite (easeInOut_low p), (easeInOut_high (1 - p)) by lra. ring.
  - destruct (Qlt_le_dec (1 - p) (1 # 2)) as [Hq|Hq].
    + rewrite (easeInOut_high p), (easeInOut_low (1 - p)) by lra. ring.
    + rewrite (easeInOut_high p), (easeInOut_high (1 - p)) by lra.
      assert (Hhalf : p == 1 # 2) by lra. rewrite Hhalf. reflexivity.
Qed.

Section ManualSlots.
Variable hk : Hook.

Lemma progress_of_nonneg (anim : AnimationState) (now : Q) :
  0 < duration anim -> startTime anim <= now -> 0 <= progress_of anim now.
Proof.
  intros Hpos Hclock. unfold progress_of. apply Q.min_glb; [|lra].
  apply Qle_shift_div_l; [done | lra].
Qed.

(** Below 1 the minimum with 1 is the quotient itself. *)
Lemma progress_of_running (anim : AnimationState) (now : Q) :
  0 < duration anim ->
  now - startTime anim < duration anim ->
  progress_of anim now = (now - startTime anim) / duration anim
  /\ Qle_bool 1 (progress_of anim now) = false.
Proof.
  intros Hpos Hearly.
  assert (Hlt : (now - startTime anim) / duration anim < 1)
    by (apply Qlt_shift_div_r; [done | lra]).
  assert (Heq : progress_of anim now = (now - startTime anim) / duration anim).
  { unfold progress_of, Qmin, GenericMinMax.gmin.
    by rewrite (proj1 (Qlt_alt _ _) Hlt). }
  split; [exact Heq|]. rewrite Heq. by apply Qle_bool_false.
Qed.

Lemma started_fields (anim : AnimationState) (now : Q) :
  duration (started anim now) = duration anim
  /\ easing (started anim now) = easing anim
  /\ targetValue (started anim now) = targetValue anim.
Proof. unfold started. by destruct (Qeq_bool (startTime anim) 0). Qed.

Lemma started_stamped (anim : AnimationState) (now : Q) :
  ~ startTime anim == 0 -> started anim now = anim.
Proof.
  intros Hset. unfold started.
  destruct (Qeq_bool (startTime anim) 0) eqn:E; [|done].
  apply Qeq_bool_eq in E. contradiction.
Qed.

Lemma started_unstamped (anim : AnimationState) (now : Q) :
  startTime anim == 0 ->
  started anim now
  = mkAnimationState now (duration anim) (easing anim) (targetValue anim).
Proof. intros Hzero. unfold started. by rewrite (Qeq_eq_bool _ _ Hzero). Qed.

(** The frame at a slot that is flagged, holds a manual record and is not
    yet done: the record is stamped and the eased value written. *)
Lemma slot_view_frame_running (now : Q) (st : Pool) (i : nat) (a v : Q)
    (anim : AnimationState) :
  slot_view hk st i = (Some a, Some v, Some (Manual anim)) ->
  a == 1 ->
  easing anim <> spring ->
  Qle_bool 1 (progress_of (started anim now) now) = false ->
  slot_view hk (useFrame hk now st) i
  = (Some a,
     Some (easedProgress (easing (started anim now))
             (progress_of (started anim now) now)
           * targetValue (started anim now)),
     Some (Manual (started anim now))).
Proof.
  intros Hview Ha Hmanual Hrun.
  rewrite slot_view_useFrame, Hview. unfold advance_view.
  rewrite (Qeq_eq_bool _ _ Ha).
  assert (Hsp : EasingType_eqb (easing anim) spring = false)
    by (destruct (easing anim); done).
  rewrite Hsp. simpl. by rewrite Hrun.
Qed.

Lemma slot_view_frame_done (now : Q) (st : Pool) (i : nat) (a v : Q)
    (anim : AnimationState) :
  slot_view hk st i = (Some a, Some v, Some (Manual anim)) ->
  a == 1 ->
  easing anim <> spring ->
  Qle_bool 1 (progress_of (started anim now) now) = true ->
  slot_view hk (useFrame hk now st) i = (Some 0, Some 0, None).
Proof.
  intros Hview Ha Hmanual Hdone.
  rewrite slot_view_useFrame, Hview. unfold advance_view.
  rewrite (Qeq_eq_bool _ _ Ha).
  assert (Hsp : EasingType_eqb (easing anim) spring = false)
    by (destruct (easing anim); done).
  rewrite Hsp. simpl. by rewrite Hdone.
Qed.

(** The slot a manual call has just taken. *)
Lemma slot_view_after_manual_trigger (options : TriggerOptions)
    (st st1 : Pool) (idx : nat) :
  firstZeroIndex hk st = Some idx ->
  trigger hk options st = Normal st1 ->
  is_Some (value_at hk st idx) ->
  default linear (opt_easing options) <> spring ->
  exists v1,
    slot_view hk st1 idx
    = (Some 1, Some v1,
       Some (Manual (mkAnimationState 0
                       (default (5 # 2) (opt_duration options))
                       (default linear (opt_easing options))
                       (default 1 (opt_targetValue options))))).
Proof.
  intros Hfree Hcall Hrange Hmanual.
  assert (Hval : is_Some (value_at hk st1 idx)).
  { pose proof (trigger_store_shape hk options st st1 idx Hfree Hcall) as Hshape.
    apply Forall2_lookup with (i := buffer hk) in Hshape.
    rewrite list_lookup_alter_eq in Hshape.
    unfold value_at, data_at in *.
    destruct (store st !! buffer hk) as [buf|]; simpl in *;
      [|by destruct Hrange].
    inversion Hshape as [b1 b2 (_ & Hlen & _)|]; subst. simpl in *.
    apply lookup_lt_is_Some. rewrite Hlen.
    by apply lookup_lt_is_Some. }
  destruct Hval as [v1 Hv1]. exists v1. unfold slot_view.
  rewrite (trigger_slot_taken hk options st st1 idx Hfree Hcall), Hv1.
  rewrite (trigger_record_of hk options st st1 idx Hfree Hcall), lookup_insert_eq.
  unfold record_of.
  assert (Hsp : EasingType_eqb (default linear (opt_easing options)) spring = false)
    by (destruct (default linear (opt_easing options)); done).
  by rewrite Hsp.
Qed.

End ManualSlots.



(** X10.  The duration of a manual animation runs from the first frame that
    sees it, not from the call: after [trigger] takes slot [idx], the frame
    at a clock time t0 other than 0 stamps the record with t0 and writes a
    value equal to 0; a later frame at time t with t - t0 below the duration
    D writes easedProgress((t - t0) / D) times the target and keeps the
    slot; a frame with t - t0 at least D frees it. *)
Theorem manual_animation_lifecycle (hk : Hook) (options : TriggerOptions)
    (st st1 : Pool) (idx : nat) (t0 : Q) :
  firstZeroIndex hk st = Some idx ->
  trigger hk options st = Normal st1 ->
  is_Some (value_at hk st idx) ->
  let e := default linear (opt_easing options) in
  let D := default (5 # 2) (opt_duration options) in
  let V := default 1 (opt_targetValue options) in
  e <> spring ->
  0 < D ->
  ~ t0 == 0 ->
  let st2 := useFrame hk t0 st1 in
  (exists w0,
     slot_view hk st2 idx
     = (Some 1, Some w0, Some (Manual (mkAnimationState t0 D e V)))
     /\ w0 == 0)
  /\ (forall t, t - t0 < D ->
        slot_view hk (useFrame hk t st2) idx
        = (Some 1, Some (easedProgress e ((t - t0) / D) * V),
           Some (Manual (mkAnimationState t0 D e V))))
  /\ (forall t, D <= t - t0 ->
        slot_view hk (useFrame hk t st2) idx = (Some 0, Some 0, None)).
Proof.
  intros Hfree Hcall Hrange e D V Hmanual Hpos Ht0 st2.
  destruct (slot_view_after_manual_trigger hk options st st1 idx
              Hfree Hcall Hrange Hmanual) as (v1 & Hview1).
  fold D e V in Hview1.
  set (fresh := mkAnimationState 0 D e V) in *.
  set (stamped := mkAnimationState t0 D e V).
  assert (Hstamp : started fresh t0 = stamped) by (by apply started_unstamped).
  assert (Hfirst : progress_of stamped t0 = (t0 - t0) / D
                   /\ Qle_bool 1 (progress_of stamped t0) = false).
  { apply progress_of_running; simpl; lra. }
  destruct Hfirst as [Hp0 Hrun0].
  assert (Hview2 : slot_view hk st2 idx
                   = (Some 1, Some (easedProgress e ((t0 - t0) / D) * V),
                      Some (Manual stamped))).
  { unfold st2.
    rewrite (slot_view_frame_running hk t0 st1 idx 1 v1 fresh Hview1);
      try done; first [by rewrite Hstamp, Hp0 | by rewrite Hstamp]. }
  assert (Hkeep : forall t, started stamped t = stamped)
    by (intros t; by apply started_stamped).
  split; [|split].
  - eexists. split; [exact Hview2|].
    assert (Hzero : (t0 - t0) / D == 0) by (field; lra).
    rewrite (easedProgress_start e _ Hzero). ring.
  - intros t Hearly.
    destruct (progress_of_running stamped t Hpos Hearly) as [Hp Hrun].
    rewrite (slot_view_frame_running hk t st2 idx 1 _ stamped Hview2);
      try done; first [by rewrite Hkeep, Hp | by rewrite Hkeep].
  - intros t Hlate.
    apply (slot_view_frame_done hk t st2 idx 1 _ stamped Hview2); try done.
    rewrite Hkeep. apply Qle_bool_iff.
    assert (Hone : progress_of stamped t == 1) by (by apply progress_of_done).
    lra.
Qed.

Lemma manual_animation_lifecycle_witness :
  slot_view Sample.hook
    (useFrame Sample.hook 3
       (useFrame Sample.hook 1
          (run Sample.hook Sample.pool [Trigger (Sample.options easeOut)]))) 0
  = (Some 0, Some 0, None).
Proof.
  destruct (manual_animation_lifecycle Sample.hook (Sample.options easeOut)
              Sample.pool
              (run Sample.hook Sample.pool [Trigger (Sample.options easeOut)])
              0 1)
    as (_ & _ & Hfreed).
  - reflexivity.
  - reflexivity.
  - by eexists.
  - discriminate.
  - reflexivity.
  - intros Hzero. discriminate Hzero.
  - apply Hfreed. simpl. lra.
Defined.

(** X11.  Start time 0 is the mark of a record not yet started, so a frame
    at clock time 0 does not start the animation: after [trigger] takes slot
    [idx], a first frame at a clock time equal to 0 followed by a frame at
    time t other than 0 leaves the record stamped with t and a value equal
    to 0, as if the second frame were the first. *)
Theorem frame_at_clock_zero_restarts (hk : Hook) (options : TriggerOptions)
    (st st1 : Pool) (idx : nat) (now0 t : Q) :
  firstZeroIndex hk st = Some idx ->
  trigger hk options st = Normal st1 ->
  is_Some (value_at hk st idx) ->
  let e := default linear (opt_easing options) in
  let D := default (5 # 2) (opt_duration options) in
  let V := default 1 (opt_targetValue options) in
  e <> spring ->
  0 < D ->
  now0 == 0 ->
  exists w,
    slot_view hk (useFrame hk t (useFrame hk now0 st1)) idx
    = (Some 1, Some w, Some (Manual (mkAnimationState t D e V)))
    /\ w == 0.
Proof.
  intros Hfree Hcall Hrange e D V Hmanual Hpos Hnow0.
  destruct (slot_view_after_manual_trigger hk options st st1 idx
              Hfree Hcall Hrange Hmanual) as (v1 & Hview1).
  fold D e V in Hview1.
  set (fresh := mkAnimationState 0 D e V) in *.
  set (first := mkAnimationState now0 D e V).
  set (second := mkAnimationState t D e V).
  assert (Hstamp1 : started fresh now0 = first) by (by apply started_unstamped).
  assert (Hstamp2 : started first t = second) by (by apply started_unstamped).
  destruct (progress_of_running first now0) as [Hp1 Hrun1]; [done | simpl; lra|].
  destruct (progress_of_running second t) as [Hp2 Hrun2]; [done | simpl; lra|].
  assert (Hview2 : slot_view hk (useFrame hk now0 st1) idx
                   = (Some 1, Some (easedProgress e ((now0 - now0) / D) * V),
                      Some (Manual first))).
  { rewrite (slot_view_frame_running hk now0 st1 idx 1 v1 fresh Hview1);
      try done; first [by rewrite Hstamp1, Hp1 | by rewrite Hstamp1]. }
  eexists. split.
  - rewrite (slot_view_frame_running hk t _ idx 1 _ first Hview2);
      try done; first [by rewrite Hstamp2, Hp2 | by rewrite Hstamp2].
  - assert (Hzero : (t - t) / D == 0) by (field; lra).
    simpl. rewrite (easedProgress_start e _ Hzero). ring.
Qed.

Lemma frame_at_clock_zero_restarts_witness :
  exists w,
    slot_view Sample.hook
      (useFrame Sample.hook 1
         (useFrame Sample.hook 0
            (run Sample.hook Sample.pool [Trigger (Sample.options linear)]))) 0
    = (Some 1, Some w, Some (Manual (mkAnimationState 1 2 linear 3)))
    /\ w == 0.
Proof.
  apply (frame_at_clock_zero_restarts Sample.hook (Sample.options linear)
           Sample.pool
           (run Sample.hook Sample.pool [Trigger (Sample.options linear)])
           0 0 1).
  - reflexivity.
  - reflexivity.
  - by eexists.
  - discriminate.
  - reflexivity.
  - reflexivity.
Defined.

Lemma store_data_unknown (dbs : gmap string nat) (idx : nat)
    (data : list (string * Q)) :
  forall s : Store,
    (forall entry, entry ∈ data -> dbs !! entry.1 = None) ->
    foldl (store_data dbs idx) s data = s.
Proof.
  induction data as [|entry data IH]; intros s Hall; simpl; [done|].
  unfold store_data at 2. rewrite (Hall entry) by (apply elem_of_cons; by left).
  apply IH. intros entry' Hin. apply Hall, elem_of_cons. by right.
Qed.

(** X12.  A payload nobody listens to is dropped: when the hook was given no
    data buffers, or none of the payload's keys names one, a call that takes
    slot [idx] changes the store only by setting that flag of the animated
    buffer. *)
Theorem payload_without_buffer_is_dropped (hk : Hook) (options : TriggerOptions)
    (st st' : Pool) (idx : nat) :
  firstZeroIndex hk st = Some idx ->
  trigger hk options st = Normal st' ->
  (forall dbs entry,
     dataBuffers hk = Some dbs ->
     entry ∈ default [] (opt_data options) ->
     dbs !! entry.1 = None) ->
  store st' = alter (setActive idx 1) (buffer hk) (store st).
Proof.
  intros Hfree Hcall Hunknown.
  destruct (dataBuffers hk) as [dbs|] eqn:Hdbs.
  - rewrite (trigger_store hk dbs options st st' idx Hdbs Hfree Hcall).
    apply store_data_unknown. intros entry. by apply Hunknown.
  - unfold firstZeroIndex, trigger in *.
    destruct (store st !! buffer hk) as [buf|]; [|discriminate].
    simpl in Hfree. rewrite Hfree, Hdbs in Hcall. injection Hcall as <-.
    by destruct (EasingType_eqb (default linear (opt_easing options)) spring).
Qed.

Lemma payload_without_buffer_is_dropped_witness :
  store (run (mkHook 0 None) Sample.pool [Trigger (Sample.options linear)])
  = alter (setActive 0 1) 0%nat (store Sample.pool).
Proof.
  apply (payload_without_buffer_is_dropped (mkHook 0 None) (Sample.options linear)
           Sample.pool
           (run (mkHook 0 None) Sample.pool [Trigger (Sample.options linear)]) 0).
  - reflexivity.
  - reflexivity.
  - intros dbs entry Hdbs. discriminate Hdbs.
Defined.

(** * Further properties of the grid trail texture *)

Section LoopLengths.

Lemma foldl_length_frame {A B : Type} (f : list A -> B -> list A) (l : list B) :
  forall d : list A,
    (forall d' a, length (f d' a) = length d') ->
    length (foldl f d l) = length d.
Proof.
  induction l as [|a l IH]; intros d Hstep; simpl; [done|].
  by rewrite IH, Hstep.
Qed.

End LoopLengths.

Section TrailLoops.
Import GridTrail TrailRuns.
Context {M : MathLib}.
Variables (p : UseGridTrailTextureProps) (velocity : Vec2.t).
Variables (mouseRadius cellX cellY : Q).

Lemma deposit_cell_length (x y : nat) (texels : list Q) :
  length (deposit_cell p velocity mouseRadius cellX cellY y texels x)
  = length texels.
Proof.
  unfold deposit_cell. cbv zeta.
  destruct (Qltb (cell_dist cellX cellY x y) (mouseRadius ^ 2)
            && Qltb 0 (cell_dist cellX cellY x y)); [|done].
  by rewrite !length_alter.
Qed.

Lemma deposit_loop_length (texels : list Q) :
  length (deposit_loop p velocity mouseRadius cellX cellY texels) = length texels.
Proof.
  unfold deposit_loop. cbv zeta.
  apply foldl_length_frame. intros d x.
  apply foldl_length_frame. intros d' y.
  apply deposit_cell_length.
Qed.

(** No cell's alpha is among the texels the loop body writes. *)
Lemma deposit_cell_alpha (x y c : nat) (texels : list Q) :
  deposit_cell p velocity mouseRadius cellX cellY y texels x !! (4 * c + 3)%nat
  = texels !! (4 * c + 3)%nat.
Proof.
  unfold deposit_cell. cbv zeta.
  destruct (Qltb (cell_dist cellX cellY x y) (mouseRadius ^ 2)
            && Qltb 0 (cell_dist cellX cellY x y)); [|done].
  rewrite !list_lookup_alter_ne by lia. done.
Qed.

Lemma deposit_loop_alpha (c : nat) (texels : list Q) :
  deposit_loop p velocity mouseRadius cellX cellY texels !! (4 * c + 3)%nat
  = texels !! (4 * c + 3)%nat.
Proof.
  unfold deposit_loop. cbv zeta.
  apply foldl_lookup_frame. intros d x _.
  apply foldl_lookup_frame. intros d' y _.
  apply deposit_cell_alpha.
Qed.

(** Inside the band the loop body adds the deposit to red, green and blue. *)
Lemma deposit_cell_in_band (x y k : nat) (texels : list Q) :
  0 < cell_dist cellX cellY x y ->
  cell_dist cellX cellY x y < mouseRadius ^ 2 ->
  (k < 3)%nat ->
  deposit_cell p velocity mouseRadius cellX cellY y texels x
    !! (4 * (x + grid p * y) + k)%nat
  = (fun v =>
       v + channel_of
             (deposit_rgb p velocity
                (brush_force mouseRadius (cell_dist cellX cellY x y))) k)
    <$> texels !! (4 * (x + grid p * y) + k)%nat.
Proof.
  intros Hpos Hin Hk. unfold deposit_cell. cbv zeta.
  rewrite (proj2 (Qltb_lt _ _) Hin), (proj2 (Qltb_lt _ _) Hpos). simpl andb.
  cbv iota.
  destruct k as [|[|[|k]]]; [| | |lia].
  - rewrite Nat.add_0_r.
    rewrite list_lookup_alter_ne by lia. rewrite list_lookup_alter_ne by lia.
    by rewrite list_lookup_alter_eq.
  - rewrite list_lookup_alter_ne by lia. rewrite list_lookup_alter_eq.
    by rewrite list_lookup_alter_ne by lia.
  - rewrite list_lookup_alter_eq.
    rewrite list_lookup_alter_ne by lia. by rewrite list_lookup_alter_ne by lia.
Qed.

End TrailLoops.

Section VisitOnce.

Lemma foldl_lookup_visit {A B : Type} (f : list A -> B -> list A)
    (g : A -> A) (j : nat) (a0 : B) (l : list B) :
  NoDup l -> a0 ∈ l ->
  (forall d a, a ∈ l -> a <> a0 -> f d a !! j = d !! j) ->
  (forall d, f d a0 !! j = g <$> d !! j) ->
  forall d, foldl f d l !! j = g <$> d !! j.
Proof.
  induction l as [|a l IH]; intros Hnd Hin Hother Hvisit d.
  - by apply elem_of_nil in Hin.
  - apply NoDup_cons in Hnd as [Hfresh Hnd]. simpl.
    apply elem_of_cons in Hin as [->|Hin].
    + rewrite foldl_lookup_frame.
      * apply Hvisit.
      * intros d' a' Ha'. apply Hother; [apply elem_of_cons; by right|].
        intros ->. contradiction.
    + assert (Hne : a <> a0) by (intros ->; contradiction).
      rewrite IH; try done.
      * f_equal. apply Hother; [apply elem_of_cons; by left | done].
      * intros d' a' Ha'. apply Hother. apply elem_of_cons. by right.
Qed.

End VisitOnce.

Section TrailLoopsVisit.
Import GridTrail TrailRuns.
Context {M : MathLib}.
Variables (p : UseGridTrailTextureProps) (velocity : Vec2.t).
Variables (mouseRadius cellX cellY : Q).

(** A cell of the grid inside the band gets its deposit once per pass. *)
Lemma deposit_loop_in_band (x0 y0 k : nat) (texels : list Q) :
  (x0 < grid p)%nat -> (y0 < grid p)%nat -> (k < 3)%nat ->
  0 < cell_dist cellX cellY x0 y0 ->
  cell_dist cellX cellY x0 y0 < mouseRadius ^ 2 ->
  deposit_loop p velocity mouseRadius cellX cellY texels
    !! (4 * (x0 + grid p * y0) + k)%nat
  = (fun v =>
       v + channel_of
             (deposit_rgb p velocity
                (brush_force mouseRadius (cell_dist cellX cellY x0 y0))) k)
    <$> texels !! (4 * (x0 + grid p * y0) + k)%nat.
Proof.
  intros Hx0 Hy0 Hk Hpos Hin. unfold deposit_loop. cbv zeta.
  apply (foldl_lookup_visit _ _ _ x0).
  - apply NoDup_seq.
  - apply elem_of_seq. lia.
  - intros d x Hx Hne. apply elem_of_seq in Hx.
    apply foldl_lookup_frame. intros d' y _.
    apply deposit_cell_other; [lia | done | lia | congruence].
  - intros d. apply (foldl_lookup_visit _ _ _ y0).
    + apply NoDup_seq.
    + apply elem_of_seq. lia.
    + intros d' y _ Hne.
      apply deposit_cell_other; [done | done | lia | congruence].
    + intros d'. by apply deposit_cell_in_band.
Qed.

End TrailLoopsVisit.

Section TrailInvariants.
Import GridTrail TrailRuns.
Context {M : MathLib}.
Variable p : UseGridTrailTextureProps.

Lemma handlePointerMove_refs (canvas : option DOMRect) (event : PointerEvent)
    (st : Trail) :
  let st' := (handlePointerMove canvas event st).1 in
  dataTextureRef st' = dataTextureRef st
  /\ pointerRef st' = pointerRef st
  /\ pointerVelocityRef st' = pointerVelocityRef st
  /\ (is_Some (canvasBoundsRef st) -> canvasBoundsRef st' = canvasBoundsRef st).
Proof.
  unfold handlePointerMove.
  destruct (canvasBoundsRef st) as [bounds|] eqn:Hb.
  - rewrite Hb. by repeat split.
  - destruct canvas as [rect|]; simpl.
    + repeat split; try done; by intros [x Hx].
    + rewrite Hb. by repeat split.
Qed.

Lemma useFrame_bounds (st : Trail) :
  canvasBoundsRef (useFrame p st) = canvasBoundsRef st.
Proof.
  unfold useFrame.
  destruct (dataTextureRef st) as [dt|]; [|done].
  by destruct (rawPointerRef st).
Qed.

Lemma bounds_kept_step (st : Trail) (e : TrailEvent) :
  is_Some (canvasBoundsRef st) -> is_Some (canvasBoundsRef (trail_step p st e)).
Proof.
  intros Hb. destruct e as [canvas event| | | |canvas|canvas|]; simpl; try done.
  - destruct (handlePointerMove_refs canvas event st) as (_ & _ & _ & Hkeep).
    by rewrite Hkeep.
  - by destruct canvas.
  - by destruct canvas.
  - by rewrite useFrame_bounds.
Qed.

Lemma bounds_kept_run (events : list TrailEvent) :
  forall st,
    is_Some (canvasBoundsRef st) ->
    is_Some (canvasBoundsRef (trail_run p st events)).
Proof.
  induction events as [|e events IH]; intros st Hb; simpl; [done|].
  by apply IH, bounds_kept_step.
Qed.

Lemma grid_shaped_frame (st : Trail) :
  grid_shaped p st -> grid_shaped p (useFrame p st).
Proof.
  intros (dt & Hdt & Hlen & Halpha). unfold useFrame. rewrite Hdt.
  destruct (rawPointerRef st) as [rawPointer|].
  - eexists. split; [reflexivity|]. cbn [data]. split.
    + by rewrite deposit_loop_length, decay_loop_length.
    + intros c Hc. rewrite deposit_loop_alpha.
      rewrite decay_loop_lookup by lia. rewrite decide_False by lia.
      by apply Halpha.
  - eexists. split; [reflexivity|]. cbn [data]. split.
    + by rewrite decay_loop_length.
    + intros c Hc. rewrite decay_loop_lookup by lia.
      rewrite decide_False by lia. by apply Halpha.
Qed.

Lemma grid_shaped_step (st : Trail) (e : TrailEvent) :
  grid_shaped p st -> grid_shaped p (trail_step p st e).
Proof.
  intros Hshape. destruct e as [canvas event| | | |canvas|canvas|]; simpl;
    try done.
  - destruct (handlePointerMove_refs canvas event st) as (Hdt & _).
    destruct Hshape as (dt & Hst & Hrest). exists dt. by rewrite Hdt.
  - by destruct canvas.
  - by destruct canvas.
  - by apply grid_shaped_frame.
Qed.

Lemma grid_shaped_mount (canvas : option DOMRect) :
  grid_shaped p (mount canvas p).
Proof.
  eexists. split; [reflexivity|]. cbn [data]. split.
  - by rewrite length_replicate.
  - intros c Hc. apply lookup_replicate_2. lia.
Qed.

Lemma grid_shaped_run (events : list TrailEvent) :
  forall st, grid_shaped p st -> grid_shaped p (trail_run p st events).
Proof.
  induction events as [|e events IH]; intros st Hshape; simpl; [done|].
  by apply IH, grid_shaped_step.
Qed.

End TrailInvariants.

Section TrailTheorems.
Import GridTrail TrailRuns.
Context {M : MathLib}.

(** X13.  From the texture the effect allocates, after any run of pointer
    events, resizes and frames, the texture is still there with four floats
    per cell of the grid; every texel the deposit loops address for a cell of
    the grid lies inside it, so no write is dropped; and every alpha is still
    0, no frame ever writing it. *)
Theorem texture_keeps_shape (p : UseGridTrailTextureProps)
    (canvas : option DOMRect) (events : list TrailEvent) :
  exists dt,
    dataTextureRef (trail_run p (mount canvas p) events) = Some dt
    /\ length (data dt) = (4 * (grid p * grid p))%nat
    /\ (forall x y k,
          (x < grid p)%nat -> (y < grid p)%nat -> (k < 4)%nat ->
          is_Some (data dt !! (4 * (x + grid p * y) + k)%nat))
    /\ (forall c, (c < grid p * grid p)%nat ->
          data dt !! (4 * c + 3)%nat = Some 0).
Proof.
  destruct (grid_shaped_run p events _ (grid_shaped_mount p canvas))
    as (dt & Hdt & Hlen & Halpha).
  exists dt. split; [done|]. split; [done|]. split; [|done].
  intros x y k Hx Hy Hk. apply lookup_lt_is_Some. rewrite Hlen. nia.
Qed.

(** X14.  Once the effect has found the canvas, no pointer move ever throws,
    whatever events came in between and even if the canvas is gone by then:
    the cached bounds are used and the canvas is not consulted again.  Only
    with no cached bounds and no canvas does a move throw. *)
Theorem moves_use_cached_bounds (p : UseGridTrailTextureProps) (rect : DOMRect)
    (events : list TrailEvent) (event : PointerEvent) :
  let st := trail_run p (mount (Some rect) p) events in
  (forall canvas, thrown st (PointerMove canvas event) = None)
  /\ (forall canvas canvas',
        handlePointerMove canvas event st = handlePointerMove canvas' event st)
  /\ thrown (mount None p) (PointerMove None event) = Some bounds_not_found.
Proof.
  intros st.
  assert (Hb : is_Some (canvasBoundsRef st)).
  { apply bounds_kept_run. by eexists. }
  destruct Hb as [bounds Hb].
  split; [|split].
  - intros canvas. unfold thrown, handlePointerMove. by rewrite Hb, Hb.
  - intros canvas canvas'. unfold handlePointerMove. by rewrite Hb, Hb.
  - reflexivity.
Qed.

(** X15.  On a frame with a pointer sample, a cell of the grid whose squared
    distance from the brush is strictly between 0 and the squared radius
    receives exactly one deposit: each of red, green and blue ends as the
    old value times the decay factor plus that channel's share of the
    deposit, computed from this frame's velocity and the clamped force. *)
Theorem frame_deposits_once_in_band (p : UseGridTrailTextureProps) (st : Trail)
    (dt : DataTexture) (rawPointer : Vec2.t) (x y k : nat) :
  dataTextureRef st = Some dt ->
  rawPointerRef st = Some rawPointer ->
  let size := grid p in
  let brushRadius := num size * radius p in
  let brushX := Vec2.x rawPointer * (1 # 2) * num size - brushRadius * (1 # 2) in
  let brushY :=
    (2 - Vec2.y rawPointer) * (1 # 2) * num size + brushRadius * (1 # 2) in
  let velocity :=
    Vec2.mk (Vec2.x rawPointer - Vec2.x (pointerRef st))
            (Vec2.y rawPointer - Vec2.y (pointerRef st)) in
  let dist := cell_dist brushX brushY x y in
  (x < size)%nat -> (y < size)%nat -> (k < 3)%nat ->
  0 < dist -> dist < brushRadius ^ 2 ->
  exists dt',
    dataTextureRef (useFrame p st) = Some dt'
    /\ data dt' !! (4 * (x + size * y) + k)%nat
       = (fun v =>
            v * decay p
            + channel_of (deposit_rgb p velocity (brush_force brushRadius dist)) k)
         <$> data dt !! (4 * (x + size * y) + k)%nat.
Proof.
  intros Hdt Hraw size brushRadius brushX brushY velocity dist Hx Hy Hk Hpos Hin.
  unfold useFrame. rewrite Hdt, Hraw.
  eexists. split; [reflexivity|]. cbn [data].
  unfold paint. cbv zeta. cbn [data dataTextureRef].
  change (pointerVelocityRef (track_pointer rawPointer st)) with velocity.
  change (Vec2.x (pointerRef (track_pointer rawPointer st)))
    with (Vec2.x rawPointer).
  change (Vec2.y (pointerRef (track_pointer rawPointer st)))
    with (Vec2.y rawPointer).
  rewrite (deposit_loop_in_band p velocity brushRadius brushX brushY x y k)
    by done.
  rewrite decay_loop_lookup by lia. rewrite decide_True by done.
  change size with (grid p).
  destruct (data dt !! (4 * (x + grid p * y) + k)%nat); reflexivity.
Qed.

End TrailTheorems.

Lemma frame_deposits_once_in_band_witness :
  exists dt' w,
    GridTrail.dataTextureRef (GridTrail.useFrame Sample.props Sample.moving)
    = Some dt'
    /\ GridTrail.data dt' !! 2%nat = Some w.
Proof.
  destruct (frame_deposits_once_in_band Sample.props Sample.moving Sample.ones
              (Vec2.mk 1 1) 0 0 2 eq_refl eq_refl)
    as (dt' & Hdt' & Hcell).
  - simpl. lia.
  - simpl. lia.
  - lia.
  - vm_compute. reflexivity.
  - vm_compute. reflexivity.
  - exists dt'. eexists. split; [exact Hdt'|]. exact Hcell.
Defined.

Section TrailFading.
Import GridTrail TrailRuns.
Context {M : MathLib}.
Variable p : UseGridTrailTextureProps.

(** Frames without a pointer sample fade the grid geometrically. *)
Lemma ticks_fade (n : nat) (st : Trail) (dt : DataTexture) :
  dataTextureRef st = Some dt ->
  rawPointerRef st = None ->
  exists dt',
    ticks p n st
    = mkTrail (Some dt') (pointerVelocityRef st) (pointerRef st) None
        (canvasBoundsRef st)
    /\ (forall c k v, (k < 3)%nat ->
          data dt !! (4 * c + k)%nat = Some v ->
          exists w, data dt' !! (4 * c + k)%nat = Some w
                    /\ w == v * decay p ^ Z.of_nat n)
    /\ (forall c, data dt' !! (4 * c + 3)%nat = data dt !! (4 * c + 3)%nat).
Proof.
  intros Hdt Hraw. induction n as [|n IH].
  - exists dt. split; [|split].
    + simpl. destruct st; simpl in *. by subst.
    + intros c k v Hk Hv. exists v. split; [done|]. simpl. ring.
    + done.
  - destruct IH as (dtn & Hn & Hrgb & Halpha).
    change (ticks p (S n) st) with (useFrame p (ticks p n st)). rewrite Hn.
    unfold useFrame. cbn [dataTextureRef rawPointerRef].
    eexists. split; [reflexivity|]. cbn [data]. split.
    + intros c k v Hk Hv. destruct (Hrgb c k v Hk Hv) as (w & Hw & Heq).
      exists (w * decay p). split.
      * rewrite decay_loop_lookup by lia. rewrite decide_True by done.
        by rewrite Hw.
      * rewrite Heq, Nat2Z.inj_succ.
        unfold Z.succ. rewrite Qpower_plus' by lia. simpl (decay p ^ 1). ring.
    + intros c. rewrite decay_loop_lookup by lia.
      rewrite decide_False by lia. apply Halpha.
Qed.

(** Two states that differ at most in the stored velocity stay so. *)
Lemma velocity_blind_step (st : Trail) (v : Vec2.t) (e : TrailEvent) :
  exists v',
    trail_step p (with_velocity v st) e = with_velocity v' (trail_step p st e).
Proof.
  destruct e as [canvas event| | | |canvas|canvas|]; simpl.
  - exists v. unfold handlePointerMove, with_velocity. simpl.
    destruct (canvasBoundsRef st) as [bounds|] eqn:Hb; simpl.
    + rewrite !Hb. simpl. by rewrite ?Hb.
    + destruct canvas as [rect|]; simpl; [done|]. rewrite !Hb. simpl.
      by rewrite ?Hb.
  - by exists (Vec2.mk 0 0).
  - by exists (Vec2.mk 0 0).
  - by exists (Vec2.mk 0 0).
  - exists v. by destruct canvas.
  - exists v. by destruct canvas.
  - destruct st as [[dt|] vel ptr [rawPointer|] bounds];
      unfold useFrame, with_velocity; simpl; try (by exists v).
    eexists. reflexivity.
Qed.

Lemma velocity_blind_reset (st : Trail) :
  resetVelocity st = with_velocity (Vec2.mk 0 0) st.
Proof. reflexivity. Qed.

Lemma with_velocity_twice (v v' : Vec2.t) (st : Trail) :
  with_velocity v (with_velocity v' st) = with_velocity v st.
Proof. reflexivity. Qed.

Lemma velocity_blind_run (events : list TrailEvent) :
  forall st v,
    exists v',
      trail_run p (with_velocity v st) (without_resets events)
      = with_velocity v' (trail_run p st events).
Proof.
  induction events as [|e events IH]; intros st v.
  - by exists v.
  - unfold without_resets. destruct (is_reset e) eqn:Hreset.
    + rewrite filter_cons_False by (rewrite Hreset; done).
      assert (Hstep : trail_step p st e = with_velocity (Vec2.mk 0 0) st)
        by (destruct e; done || discriminate).
      simpl. rewrite Hstep.
      destruct (IH (with_velocity (Vec2.mk 0 0) st) v) as (v' & Hv').
      exists v'. by rewrite with_velocity_twice in Hv'.
    + rewrite filter_cons_True by done. simpl.
      destruct (velocity_blind_step st v e) as (v1 & ->).
      apply IH.
Qed.

Lemma Math_sign_zero (v : Q) : v == 0 -> Math_sign v == 0.
Proof.
  intros Hv. unfold Math_sign.
  rewrite (proj2 (Qltb_ge 0 v)) by lra.
  rewrite (proj2 (Qltb_ge v 0)) by lra. done.
Qed.

(** A velocity of zero deposits nothing into red and green, whatever the
    host's [Math] computes. *)
Lemma deposit_rgb_at_rest (velocity : Vec2.t) (force : Q) (k : nat) :
  Vec2.x velocity == 0 -> Vec2.y velocity == 0 -> (k < 2)%nat ->
  channel_of (deposit_rgb p velocity force) k == 0.
Proof.
  intros Hx Hy Hk. unfold deposit_rgb. cbv zeta.
  assert (Hvx : Vec2.x velocity * (num (grid p) / 2) == 0)
    by (rewrite Hx; ring).
  assert (Hvy : - Vec2.y velocity * (num (grid p) / 2) == 0)
    by (rewrite Hy; ring).
  pose proof (Math_sign_zero _ Hvx) as Hsx.
  pose proof (Math_sign_zero _ Hvy) as Hsy.
  destruct k as [|[|k]]; [| |lia]; cbn [channel_of fst snd];
    match goal with
    | |- context [if ?c then 1 else ?h] =>
        generalize (if c then 1 else h); intros len
    end.
  - rewrite Hsx. unfold Qdiv. ring.
  - rewrite Hsy. unfold Qdiv. ring.
Qed.

End TrailFading.

Section TrailTheoremsMore.
Import GridTrail TrailRuns.
Context {M : MathLib}.


(** X17.  Nothing the hook keeps in the stored velocity reaches the texture:
    a run started with any other stored velocity and with the pointerup and
    blur listeners (which only reset that velocity) taken out ends with the
    same texture, pointer position, pointer sample and cached bounds. *)
Theorem stored_velocity_never_reaches_texture (p : UseGridTrailTextureProps)
    (st : Trail) (v : Vec2.t) (events : list TrailEvent) :
  let full := trail_run p st events in
  let bare := trail_run p (with_velocity v st) (without_resets events) in
  dataTextureRef bare = dataTextureRef full
  /\ pointerRef bare = pointerRef full
  /\ rawPointerRef bare = rawPointerRef full
  /\ canvasBoundsRef bare = canvasBoundsRef full.
Proof.
  intros full bare.
  destruct (velocity_blind_run p events st v) as (v' & Hrun).
  unfold bare. rewrite Hrun. by repeat split.
Qed.


End TrailTheoremsMore.



(** X19.  Completion undoes what [trigger] did to the flags: after a call
    takes slot [idx] and its animation completes through [onComplete], the
    flag of [idx] is 0 again, its record is gone, every other slot is as it
    was before the call, and the next call takes [idx] once more. *)
Theorem completed_slot_is_taken_again (hk : Hook) (options : TriggerOptions)
    (st st1 : Pool) (idx : nat) :
  firstZeroIndex hk st = Some idx ->
  trigger hk options st = Normal st1 ->
  let st2 := onComplete hk idx st1 in
  slot_view hk st2 idx = (Some 0, (fun _ => 0) <$> value_at hk st1 idx, None)
  /\ (forall i, i <> idx -> slot_view hk st2 i = slot_view hk st i)
  /\ firstZeroIndex hk st2 = Some idx.
Proof.
  intros Hfree Hcall st2.
  assert (Hfirst : slot_view hk st2 idx
                   = (Some 0, (fun _ => 0) <$> value_at hk st1 idx, None)).
  { unfold st2, onComplete. rewrite slot_view_release.
    by rewrite (trigger_slot_taken hk options st st1 idx Hfree Hcall). }
  assert (Hothers : forall i, i <> idx -> slot_view hk st2 i = slot_view hk st i).
  { intros i Hi. unfold st2, onComplete.
    rewrite slot_view_release_ne by done.
    by apply (trigger_slot_view_other hk options st st1 idx). }
  split; [exact Hfirst|]. split; [exact Hothers|].
  apply (firstZeroIndex_least hk st2 idx 0).
  - unfold slot_view in Hfirst. by injection Hfirst.
  - reflexivity.
  - intros j b Hj Hb Hzero.
    assert (Hsame : active_at hk st2 j = active_at hk st j).
    { pose proof (Hothers j ltac:(lia)) as Hview.
      unfold slot_view in Hview. by injection Hview. }
    rewrite Hsame in Hb.
    unfold firstZeroIndex, active_at in *.
    destruct (store st !! buffer hk) as [buf|]; [|discriminate]. simpl in *.
    apply findIndex_Some in Hfree as [_ Hbefore].
    specialize (Hbefore j b Hj Hb). simpl in Hbefore.
    by rewrite (Qeq_eq_bool _ _ Hzero) in Hbefore.
Qed.

Lemma completed_slot_is_taken_again_witness :
  firstZeroIndex Sample.hook
    (onComplete Sample.hook 1
       (run Sample.hook Sample.running [Trigger (Sample.options spring)]))
  = Some 1%nat.
Proof.
  destruct (completed_slot_is_taken_again Sample.hook (Sample.options spring)
              Sample.running
              (run Sample.hook Sample.running [Trigger (Sample.options spring)])
              1 eq_refl eq_refl)
    as (_ & _ & Hagain).
  exact Hagain.
Defined.
